(** * The shode execution engine: a shallow embedding and its checked contract

    The Go package [engine] (ExecutionEngine and its helpers), together with
    the parts of [stdlib], [environment] and [types] it calls, is embedded
    as Rocq functions over an explicit machine state.  Go's [(result, error)]
    returns become the sum [Res]; a Go run-time panic is a third outcome.
    Whatever lives outside these sources (the security checker, the binaries
    started through os/exec, Go's [strings] package) is a field of the
    record [Host]; every general theorem holds for every host. *)

From Stdlib Require Import ZArith Lia.
From stdpp Require Import base option list gmap strings pretty.

Local Open Scope Z_scope.
#[local] Set Warnings "-clear-no-such-hyp".

(** ** The AST ([pkg/types/ast.go])

    [Position] is carried by every node but never read by the engine; it
    is left out. *)

Record RedirectNode := mkRedirect {
  Op : string;     (* >, >>, <, 2>&1, &> *)
  File : string;
  Fd : Z           (* file descriptor (0, 1, 2) *)
}.

Record CommandNode := mkCommand {
  Name : string;
  Args : list string;
  Redirect : option RedirectNode   (* a nil pointer is [None] *)
}.

Unset Elimination Schemes.

(** Modelled from the spec: the declarations of IfNode, ForNode, WhileNode,
    AssignmentNode and FunctionNode are not in ast.go; their shape is the
    spec's data model ([IfNode{condition, thenBody, elseBody?}],
    [ForNode{variable, items[], body}], [WhileNode{condition, body}],
    [AssignmentNode{name, value}]) with the field types the engine relies
    on (bodies are scripts, the else branch may be nil).  A script is the
    ordered list of its nodes. *)
Inductive Node :=
  | NCommand (c : CommandNode)
  | NPipe (left right : Node)
  | NRedirect (r : RedirectNode)
  | NScript (nodes : list Node)
  | NIf (condition : Node) (thenBody : list Node) (elseBody : option (list Node))
  | NFor (variable : string) (items : list string) (body : list Node)
  | NWhile (condition : Node) (body : list Node)
  | NAssignment (name value : string)
  | NFunction (name : string) (body : list Node).
Set Elimination Schemes.

Definition ScriptNode := list Node.

(** What [%T] prints for a node. *)
Definition typeName (n : Node) : string :=
  match n with
  | NCommand _ => "*types.CommandNode"
  | NPipe _ _ => "*types.PipeNode"
  | NRedirect _ => "*types.RedirectNode"
  | NScript _ => "*types.ScriptNode"
  | NIf _ _ _ => "*types.IfNode"
  | NFor _ _ _ => "*types.ForNode"
  | NWhile _ _ => "*types.WhileNode"
  | NAssignment _ _ => "*types.AssignmentNode"
  | NFunction _ _ => "*types.FunctionNode"
  end.

(** ** Results *)

Inductive ExecutionMode := ModeInterpreted | ModeProcess | ModeHybrid.

Module CommandResult.
Record t := mk {
    Command : CommandNode;
    Success : bool;
    ExitCode : Z;
    Output : string;
    Error : string;
    Duration : Z;
    Mode : ExecutionMode
  }.
  (** The fields a Go composite literal leaves out take their zero value:
      [Duration] 0 and [Mode] 0, which is [ModeInterpreted]. *)
Definition lit (c : CommandNode) (ok : bool) (code : Z) (out err : string) : t :=
    mk c ok code out err 0 ModeInterpreted.
Definition setDuration (d : Z) (r : t) : t :=
    mk (Command r) (Success r) (ExitCode r) (Output r) (Error r) d (Mode r).
Definition setMode (m : ExecutionMode) (r : t) : t :=
    mk (Command r) (Success r) (ExitCode r) (Output r) (Error r) (Duration r) m.
End CommandResult.

Module PipelineResult.
Record t := mk {
    Success : bool;
    ExitCode : Z;
    Output : string;
    Error : string;
    Results : list CommandResult.t
  }.
End PipelineResult.

Module ExecutionResult.
Record t := mk {
    Success : bool;
    ExitCode : Z;
    Output : string;
    Error : string;
    Duration : Z;
    Commands : list CommandResult.t
  }.
Definition setSuccess (b : bool) (r : t) : t :=
    mk b (ExitCode r) (Output r) (Error r) (Duration r) (Commands r).
Definition setExitCode (c : Z) (r : t) : t :=
    mk (Success r) c (Output r) (Error r) (Duration r) (Commands r).
Definition setDuration (d : Z) (r : t) : t :=
    mk (Success r) (ExitCode r) (Output r) (Error r) d (Commands r).
Definition appendCommands (cs : list CommandResult.t) (r : t) : t :=
    mk (Success r) (ExitCode r) (Output r) (Error r) (Duration r) (Commands r ++ cs).
End ExecutionResult.

(** ** The operating system seen by the engine

    Paths are opaque keys (no normalisation).  [denied] holds the paths on
    which the kernel refuses open(2); [open_fds] is the descriptor table of
    the engine's own process; [now] is the wall clock. *)

Inductive OpenFlag := O_RDONLY | O_TRUNC | O_APPEND.

Record OsFile := mkFile { f_fd : nat; f_name : string; f_flag : OpenFlag }.

Record OS := mkOS {
  files : gmap string string;
  dirs : gmap string (list string);
  denied : gset string;
  environ : gmap string string;
  cwd : string;
  stdout : string;
  stderr : string;
  open_fds : gset nat;
  next_fd : nat;
  now : Z
}.

Definition setFiles (fs : gmap string string) (o : OS) : OS :=
  mkOS fs (dirs o) (denied o) (environ o) (cwd o) (stdout o) (stderr o)
       (open_fds o) (next_fd o) (now o).
Definition setEnviron (e : gmap string string) (o : OS) : OS :=
  mkOS (files o) (dirs o) (denied o) e (cwd o) (stdout o) (stderr o)
       (open_fds o) (next_fd o) (now o).
Definition setCwd (d : string) (o : OS) : OS :=
  mkOS (files o) (dirs o) (denied o) (environ o) d (stdout o) (stderr o)
       (open_fds o) (next_fd o) (now o).
Definition writeStdout (t : string) (o : OS) : OS :=
  mkOS (files o) (dirs o) (denied o) (environ o) (cwd o) (stdout o +:+ t) (stderr o)
       (open_fds o) (next_fd o) (now o).
Definition writeStderr (t : string) (o : OS) : OS :=
  mkOS (files o) (dirs o) (denied o) (environ o) (cwd o) (stdout o) (stderr o +:+ t)
       (open_fds o) (next_fd o) (now o).
Definition setFds (fds : gset nat) (nxt : nat) (o : OS) : OS :=
  mkOS (files o) (dirs o) (denied o) (environ o) (cwd o) (stdout o) (stderr o)
       fds nxt (now o).

Definition newline : string := String (Ascii.ascii_of_nat 10) EmptyString.

Definition allocFile (name : string) (flag : OpenFlag) (o : OS) : OsFile * OS :=
  (mkFile (next_fd o) name flag,
   setFds ({[ next_fd o ]} ∪ open_fds o) (S (next_fd o)) o).

(** os.Create: O_RDWR|O_CREATE|O_TRUNC. *)
Definition os_Create (name : string) (o : OS) : (string + OsFile) * OS :=
  if decide (name ∈ denied o) then (inl ("open " +:+ name +:+ ": permission denied"), o)
  else let '(f, o1) := allocFile name O_TRUNC (setFiles (<[name := ""]> (files o)) o) in
       (inr f, o1).

(** os.OpenFile(name, O_APPEND|O_CREATE|O_WRONLY, 0644). *)
Definition os_OpenFileAppend (name : string) (o : OS) : (string + OsFile) * OS :=
  if decide (name ∈ denied o) then (inl ("open " +:+ name +:+ ": permission denied"), o)
  else let fs := match files o !! name with
                 | Some _ => files o
                 | None => <[name := ""]> (files o)
                 end in
       let '(f, o1) := allocFile name O_APPEND (setFiles fs o) in
       (inr f, o1).

(** os.Open: read only, the file must exist. *)
Definition os_Open (name : string) (o : OS) : (string + OsFile) * OS :=
  if decide (name ∈ denied o) then (inl ("open " +:+ name +:+ ": permission denied"), o)
  else match files o !! name with
       | None => (inl ("open " +:+ name +:+ ": no such file or directory"), o)
       | Some _ => let '(f, o1) := allocFile name O_RDONLY o in (inr f, o1)
       end.

Definition file_Close (f : OsFile) (o : OS) : OS :=
  setFds (open_fds o ∖ {[ f_fd f ]}) (next_fd o) o.

Definition ioutil_ReadFile (name : string) (o : OS) : string + string :=
  if decide (name ∈ denied o) then inl ("open " +:+ name +:+ ": permission denied")
  else match files o !! name with
       | None => inl ("open " +:+ name +:+ ": no such file or directory")
       | Some c => inr c
       end.

Definition ioutil_WriteFile (name content : string) (o : OS) : option string * OS :=
  if decide (name ∈ denied o) then (Some ("open " +:+ name +:+ ": permission denied"), o)
  else (None, setFiles (<[name := content]> (files o)) o).

Definition ioutil_ReadDir (dirpath : string) (o : OS) : string + list string :=
  if decide (dirpath ∈ denied o) then inl ("open " +:+ dirpath +:+ ": permission denied")
  else match dirs o !! dirpath with
       | None => inl ("open " +:+ dirpath +:+ ": no such file or directory")
       | Some names => inr names
       end.

(** [os.IsNotExist] of the error of [os.Stat]. *)
Definition stat_IsNotExist (name : string) (o : OS) : bool :=
  bool_decide (name ∉ denied o) &&
  bool_decide (files o !! name = None) && bool_decide (dirs o !! name = None).

Definition hasByte (c : Ascii.ascii) (s : string) : bool :=
  existsb (fun x => bool_decide (x = c)) (String.list_ascii_of_string s).

(** os.Setenv refuses an empty key and a key holding '=' or NUL. *)
Definition os_Setenv (key value : string) (o : OS) : option string * OS :=
  if bool_decide (key = "") || hasByte (Ascii.ascii_of_nat 61) key || hasByte Ascii.zero key
  then (Some "setenv: invalid argument", o)
  else (None, setEnviron (<[key := value]> (environ o)) o).

Definition os_Getenv (key : string) (o : OS) : string :=
  default "" (environ o !! key).

Definition os_Getwd (o : OS) : string + string :=
  match dirs o !! cwd o with
  | None => inl "getwd: no such file or directory"
  | Some _ => inr (cwd o)
  end.

Definition os_Chdir (dirpath : string) (o : OS) : option string * OS :=
  if decide (dirpath ∈ denied o) then (Some ("chdir " +:+ dirpath +:+ ": permission denied"), o)
  else match dirs o !! dirpath with
       | None => (Some ("chdir " +:+ dirpath +:+ ": no such file or directory"), o)
       | Some _ => (None, setCwd dirpath o)
       end.

(** ** os/exec *)

Inductive Builder := stdoutBuilder | stderrBuilder.
Inductive Reader := RNil | RFile (f : OsFile).
Inductive Writer := WNil | WBuilder (b : Builder) | WFile (f : OsFile).

Record Cmd := mkCmd {
  Path : string;
  CmdArgs : list string;
  Env : list string;
  Dir : string;
  Stdin : Reader;
  Stdout : Writer;
  Stderr : Writer
}.

Definition setStdin (r : Reader) (c : Cmd) : Cmd :=
  mkCmd (Path c) (CmdArgs c) (Env c) (Dir c) r (Stdout c) (Stderr c).
Definition setStdout (w : Writer) (c : Cmd) : Cmd :=
  mkCmd (Path c) (CmdArgs c) (Env c) (Dir c) (Stdin c) w (Stderr c).
Definition setStderr (w : Writer) (c : Cmd) : Cmd :=
  mkCmd (Path c) (CmdArgs c) (Env c) (Dir c) (Stdin c) (Stdout c) w.

(** The error of [Run]/[Wait]: nil, an [*exec.ExitError] with the exit code
    of the process, or any other error (the process could not be started,
    its I/O could not be copied). *)
Inductive RunError := ErrNil | ExitError (code : Z) | OtherError (msg : string).

(** What the child wrote on its descriptors 1 and 2. *)
Record RunResult := mkRun { run_err : RunError; wrote_out : string; wrote_err : string }.

(** The steps of executeProcessWithInput that can go wrong one by one. *)
Inductive InputRun :=
  | StdinPipeFailed (msg : string)
  | StartFailed (msg : string)
  | StdinWriteFailed (msg : string)
  | Waited (r : RunResult).

(** ** External collaborators *)

Record Host := mkHost {
  (* sandbox.SecurityChecker.CheckCommand: [None] is a nil error *)
  CheckCommand : CommandNode -> option string;
  (* exec.LookPath succeeded *)
  LookPath : string -> OS -> bool;
  (* exec.Cmd.Run *)
  Run : Cmd -> OS -> RunResult * OS;
  (* StdinPipe; Start; stdin.Write(input); stdin.Close; Wait *)
  RunWithInput : Cmd -> string -> OS -> InputRun * OS;
  strings_Contains : string -> string -> bool;
  strings_ReplaceAll : string -> string -> string -> string;
  strings_ToUpper : string -> string;
  strings_ToLower : string -> string;
  strings_TrimSpace : string -> string
}.

(** ** environment.EnvironmentManager *)

Record EnvironmentManager := mkEnv {
  workingDir : string;
  environment : gmap string string
}.

Definition em_SetEnv (key value : string) (em : EnvironmentManager) : EnvironmentManager :=
  mkEnv (workingDir em) (<[key := value]> (environment em)).

Definition GetAllEnv (em : EnvironmentManager) : gmap string string := environment em.

Definition GetWorkingDir (em : EnvironmentManager) : string := workingDir em.

(** ** The command cache *)

(** Modelled from the spec: the type CommandCache is not among the sources.
    A cache entry maps the exact (name, ordered args) pair to a
    CommandResult snapshot and its insertion time; the cache has a capacity
    ceiling (NewCommandCache(1000)) and a TTL. *)
Record CacheEntry := mkEntry {
  ce_name : string;
  ce_args : list string;
  ce_result : CommandResult.t;
  ce_insertedAt : Z
}.

Record CommandCache := mkCache {
  entries : list CacheEntry;     (* oldest first *)
  maxSize : nat;
  ttl : Z
}.

Definition keyMatches (name : string) (args : list string) (e : CacheEntry) : bool :=
  bool_decide (ce_name e = name) && bool_decide (ce_args e = args).

(** Modelled from the spec: CommandCache.Get is not among the sources.  The
    key is the exact ordered (name, args) pair, no normalisation; an entry
    older than the TTL is invalid on read and is pruned on that access. *)
Definition cache_Get (name : string) (args : list string) (t : Z) (c : CommandCache)
  : option CommandResult.t * CommandCache :=
  match List.find (keyMatches name args) (entries c) with
  | None => (None, c)
  | Some e =>
      if Z.leb (t - ce_insertedAt e) (ttl c) then (Some (ce_result e), c)
      else (None, mkCache (List.filter (fun x => negb (keyMatches name args x)) (entries c))
                          (maxSize c) (ttl c))
  end.

(** Modelled from the spec: CommandCache.Put is not among the sources.  A
    put replaces the entry of its key; when the cache is full the oldest
    entry is evicted.  The Go cache holds the pointer it is given, so the
    Duration and Mode that ExecuteCommand stamps afterwards show through
    it; both are stamped again on every hit before the result is handed
    out, and no other field is written after creation. *)
Definition cache_Put (name : string) (args : list string) (r : CommandResult.t) (t : Z)
    (c : CommandCache) : CommandCache :=
  let others := List.filter (fun x => negb (keyMatches name args x)) (entries c) in
  let kept := if Nat.ltb (length others) (maxSize c) then others else tail others in
  mkCache (kept ++ [mkEntry name args r t]) (maxSize c) (ttl c).

(** ** The machine state: everything the engine reads or mutates *)

Record State := mkState {
  envManager : EnvironmentManager;
  cache : CommandCache;
  os : OS
}.

Definition setOs (o : OS) (s : State) : State :=
  mkState (envManager s) (cache s) o.
Definition setCache (c : CommandCache) (s : State) : State :=
  mkState (envManager s) c (os s).
Definition setEnvManager (em : EnvironmentManager) (s : State) : State :=
  mkState em (cache s) (os s).

(** ** Outcomes: a value, a non-nil Go error, or a run-time panic *)

Inductive Res (A : Type) :=
  | Ok (a : A)
  | Fatal (err : string)
  | Panic (msg : string).
Arguments Ok {A} a.
Arguments Fatal {A} err.
Arguments Panic {A} msg.

Definition M (A : Type) : Type := State -> Res A * State.

Definition ret {A} (a : A) : M A := fun s => (Ok a, s).

Definition bind {A B} (m : M A) (k : A -> M B) : M B :=
  fun s => match m s with
           | (Ok a, s1) => k a s1
           | (Fatal e, s1) => (Fatal e, s1)
           | (Panic e, s1) => (Panic e, s1)
           end.

Notation "'do' x <- m ; k" := (bind m (fun x => k))
  (at level 10, x name, m at level 100, k at level 200).

Definition time_Now (s : State) : Z := now (os s).
Definition time_Since (start : Z) (s : State) : Z := now (os s) - start.

(** ** The engine ([pkg/engine], ExecutionEngine) *)

Section Engine.
Context (H : Host).

(** *** Mode selection *)

Definition stdlibFunctions : gmap string bool :=
  list_to_map
    [ ("Print", true); ("Println", true); ("Error", true); ("Errorln", true);
      ("ReadFile", true); ("WriteFile", true); ("ListFiles", true);
      ("FileExists", true); ("Contains", true); ("Replace", true);
      ("ToUpper", true); ("ToLower", true); ("Trim", true); ("GetEnv", true);
      ("SetEnv", true); ("WorkingDir", true); ("ChangeDir", true) ].

(** Indexing a Go map with an absent key yields the zero value. *)
Definition isStdLibFunction (funcName : string) : bool :=
  default false (stdlibFunctions !! funcName).

Definition isExternalCommandAvailable (cmd : string) (s : State) : bool :=
  LookPath H cmd (os s).

Definition decideExecutionMode (cmd : CommandNode) (s : State) : ExecutionMode :=
  if isStdLibFunction (Name cmd) then ModeInterpreted
  else if isExternalCommandAvailable (Name cmd) s then ModeProcess
  else ModeProcess.

(** *** The standard library ([pkg/stdlib]) *)

Definition sl_Print (text : string) (s : State) : State := setOs (writeStdout text (os s)) s.
Definition sl_Println (text : string) (s : State) : State :=
  setOs (writeStdout (text +:+ newline) (os s)) s.
Definition sl_Error (text : string) (s : State) : State := setOs (writeStderr text (os s)) s.
Definition sl_Errorln (text : string) (s : State) : State :=
  setOs (writeStderr (text +:+ newline) (os s)) s.

Definition sl_ReadFile (filename : string) (s : State) : string * option string :=
  match ioutil_ReadFile filename (os s) with
  | inl err => ("", Some ("failed to read file " +:+ filename +:+ ": " +:+ err))
  | inr content => (content, None)
  end.

Definition sl_WriteFile (filename content : string) (s : State) : option string * State :=
  let '(err, o) := ioutil_WriteFile filename content (os s) in (err, setOs o s).

Definition sl_ListFiles (dirpath : string) (s : State) : list string * option string :=
  match ioutil_ReadDir dirpath (os s) with
  | inl err => ([], Some ("failed to list directory " +:+ dirpath +:+ ": " +:+ err))
  | inr names => (names, None)
  end.

Definition sl_FileExists (filename : string) (s : State) : bool :=
  negb (stat_IsNotExist filename (os s)).

Definition sl_SetEnv (key value : string) (s : State) : option string * State :=
  let '(err, o) := os_Setenv key value (os s) in (err, setOs o s).

Definition sl_ChangeDir (dirpath : string) (s : State) : option string * State :=
  let '(err, o) := os_Chdir dirpath (os s) in (err, setOs o s).

(** strings.Join(files, "
") *)
Fixpoint joinLines (l : list string) : string :=
  match l with
  | [] => ""
  | [x] => x
  | x :: rest => x +:+ newline +:+ joinLines rest
  end.

(** fmt.Sprintf("%v", b) *)
Definition fmtBool (b : bool) : string := if b then "true" else "false".

(** The pair is Go's [(string, error)]. *)
Definition executeStdLibFunction (funcName : string) (args : list string) (s : State)
  : (string * option string) * State :=
  if String.eqb funcName "Print" then
    match args with
    | a0 :: _ => ((a0, None), sl_Print a0 s)
    | [] => (("", None), s)
    end
  else if String.eqb funcName "Println" then
    match args with
    | a0 :: _ => ((a0, None), sl_Println a0 s)
    | [] => (("", None), sl_Println "" s)
    end
  else if String.eqb funcName "Error" then
    match args with
    | a0 :: _ => ((a0, None), sl_Error a0 s)
    | [] => (("", None), s)
    end
  else if String.eqb funcName "Errorln" then
    match args with
    | a0 :: _ => ((a0, None), sl_Errorln a0 s)
    | [] => (("", None), sl_Errorln "" s)
    end
  else if String.eqb funcName "ReadFile" then
    match args with
    | [] => (("", Some "ReadFile requires filename argument"), s)
    | a0 :: _ => (sl_ReadFile a0 s, s)
    end
  else if String.eqb funcName "WriteFile" then
    match args with
    | a0 :: a1 :: _ =>
        let '(err, s1) := sl_WriteFile a0 a1 s in (("File written", err), s1)
    | _ => (("", Some "WriteFile requires filename and content arguments"), s)
    end
  else if String.eqb funcName "ListFiles" then
    match args with
    | [] =>
        match sl_ListFiles "." s with
        | (_, Some err) => (("", Some err), s)
        | (names, None) => ((joinLines names, None), s)
        end
    | a0 :: _ =>
        match sl_ListFiles a0 s with
        | (_, Some err) => (("", Some err), s)
        | (names, None) => ((joinLines names, None), s)
        end
    end
  else if String.eqb funcName "FileExists" then
    match args with
    | [] => (("", Some "FileExists requires filename argument"), s)
    | a0 :: _ => ((fmtBool (sl_FileExists a0 s), None), s)
    end
  else if String.eqb funcName "Contains" then
    match args with
    | a0 :: a1 :: _ => ((fmtBool (strings_Contains H a0 a1), None), s)
    | _ => (("", Some "Contains requires haystack and needle arguments"), s)
    end
  else if String.eqb funcName "Replace" then
    match args with
    | a0 :: a1 :: a2 :: _ => ((strings_ReplaceAll H a0 a1 a2, None), s)
    | _ => (("", Some "Replace requires string, old, and new arguments"), s)
    end
  else if String.eqb funcName "ToUpper" then
    match args with
    | [] => (("", None), s)
    | a0 :: _ => ((strings_ToUpper H a0, None), s)
    end
  else if String.eqb funcName "ToLower" then
    match args with
    | [] => (("", None), s)
    | a0 :: _ => ((strings_ToLower H a0, None), s)
    end
  else if String.eqb funcName "Trim" then
    match args with
    | [] => (("", None), s)
    | a0 :: _ => ((strings_TrimSpace H a0, None), s)
    end
  else if String.eqb funcName "GetEnv" then
    match args with
    | [] => (("", Some "GetEnv requires environment variable name"), s)
    | a0 :: _ => ((os_Getenv a0 (os s), None), s)
    end
  else if String.eqb funcName "SetEnv" then
    match args with
    | a0 :: a1 :: _ =>
        let '(err, s1) := sl_SetEnv a0 a1 s in (("Environment variable set", err), s1)
    | _ => (("", Some "SetEnv requires key and value arguments"), s)
    end
  else if String.eqb funcName "WorkingDir" then
    match os_Getwd (os s) with
    | inl err => (("", Some err), s)
    | inr wd => ((wd, None), s)
    end
  else if String.eqb funcName "ChangeDir" then
    match args with
    | [] => (("", Some "ChangeDir requires directory path"), s)
    | a0 :: _ => let '(err, s1) := sl_ChangeDir a0 s in (("Directory changed", err), s1)
    end
  else (("", Some ("unknown standard library function: " +:+ funcName)), s).

Definition executeInterpreted (cmd : CommandNode) : M CommandResult.t := fun s =>
  match executeStdLibFunction (Name cmd) (Args cmd) s with
  | ((_, Some err), s1) => (Ok (CommandResult.lit cmd false 1 "" err), s1)
  | ((result, None), s1) => (Ok (CommandResult.lit cmd true 0 result ""), s1)
  end.
(** *** External processes *)

(** exec.CommandContext(ctx, name, args...) *)
Definition exec_CommandContext (name : string) (args : list string) : Cmd :=
  mkCmd name args [] "" RNil WNil WNil.

(** The child's environment block, one "key=value" per variable of the
    manager (Go ranges over the map in an unspecified order; the order of
    [map_to_list] stands for it). *)
Definition envVars (em : EnvironmentManager) : list string :=
  (fun kv => fst kv +:+ "=" +:+ snd kv) <$> map_to_list (GetAllEnv em).

Definition newCommand (cmd : CommandNode) (s : State) : Cmd :=
  let command := exec_CommandContext (Name cmd) (Args cmd) in
  mkCmd (Path command) (CmdArgs command) (envVars (envManager s))
        (GetWorkingDir (envManager s)) (Stdin command) (Stdout command) (Stderr command).

Definition bindOutput (fd : Z) (file : OsFile) (cmd : Cmd) : Cmd :=
  if (fd =? 1) || (fd =? 0) then setStdout (WFile file) cmd
  else if fd =? 2 then setStderr (WFile file) cmd
  else cmd.

(** The two builders handed to setupRedirect are never touched by it and
    are left out.  Every [defer file.Close()] runs when setupRedirect
    returns, which is what [file_Close] at the end of a branch stands for. *)
Definition setupRedirect (cmd : Cmd) (redirect : RedirectNode) (o : OS)
  : Cmd * option string * OS :=
  if String.eqb (Op redirect) ">" then
    match os_Create (File redirect) o with
    | (inl err, o1) =>
        (cmd, Some ("failed to create file " +:+ File redirect +:+ ": " +:+ err), o1)
    | (inr file, o1) => (bindOutput (Fd redirect) file cmd, None, file_Close file o1)
    end
  else if String.eqb (Op redirect) ">>" then
    match os_OpenFileAppend (File redirect) o with
    | (inl err, o1) =>
        (cmd, Some ("failed to open file " +:+ File redirect +:+ ": " +:+ err), o1)
    | (inr file, o1) => (bindOutput (Fd redirect) file cmd, None, file_Close file o1)
    end
  else if String.eqb (Op redirect) "<" then
    match os_Open (File redirect) o with
    | (inl err, o1) =>
        (cmd, Some ("failed to open file " +:+ File redirect +:+ ": " +:+ err), o1)
    | (inr file, o1) => (setStdin (RFile file) cmd, None, file_Close file o1)
    end
  else if String.eqb (Op redirect) "2>&1" then
    (setStderr (Stdout cmd) cmd, None, o)
  else if String.eqb (Op redirect) "&>" then
    match os_Create (File redirect) o with
    | (inl err, o1) =>
        (cmd, Some ("failed to create file " +:+ File redirect +:+ ": " +:+ err), o1)
    | (inr file, o1) =>
        (setStderr (WFile file) (setStdout (WFile file) cmd), None, file_Close file o1)
    end
  else (cmd, Some ("unsupported redirect operator: " +:+ Op redirect), o).

Definition isNil (e : RunError) : bool :=
  match e with ErrNil => true | _ => false end.

(** exitCode := 0; if err != nil { ExitError => its code; otherwise 1 } *)
Definition exitCodeOf (e : RunError) : Z :=
  match e with
  | ErrNil => 0
  | ExitError code => code
  | OtherError _ => 1
  end.

Definition feeds (w : Writer) (b : Builder) : bool :=
  match w, b with
  | WBuilder stdoutBuilder, stdoutBuilder => true
  | WBuilder stderrBuilder, stderrBuilder => true
  | _, _ => false
  end.

(** [b.String()] after the run: what reached builder [b] through the
    streams bound to it. *)
Definition builderString (b : Builder) (command : Cmd) (r : RunResult) : string :=
  (if feeds (Stdout command) b then wrote_out r else "") +:+
  (if feeds (Stderr command) b then wrote_err r else "").

(** The first block of executeProcess: "Check cache first (only if no
    redirects)". *)
Definition cacheLookup (cmd : CommandNode) (s : State) : option CommandResult.t * State :=
  match Redirect cmd with
  | None =>
      let '(hit, c1) := cache_Get (Name cmd) (Args cmd) (time_Now s) (cache s) in
      (hit, setCache c1 s)
  | Some _ => (None, s)
  end.

(** The block "Handle redirections" of executeProcess: the exec.Cmd as it
    is when [command.Run()] is reached, or the redirect error. *)
Definition configureStdio (cmd : CommandNode) (s : State) : Cmd * option string * OS :=
  let command := newCommand cmd s in
  match Redirect cmd with
  | Some redirect => setupRedirect command redirect (os s)
  | None =>
      (* No redirect - capture output *)
      (setStderr (WBuilder stderrBuilder) (setStdout (WBuilder stdoutBuilder) command),
       None, os s)
  end.

Definition executeProcess (cmd : CommandNode) : M CommandResult.t := fun s =>
  let '(cached, s0) := cacheLookup cmd s in
  match cached with
  | Some r => (Ok r, s0)
  | None =>
      let '(command1, rerr, o1) := configureStdio cmd s0 in
      match rerr with
      | Some err =>
          (Ok (CommandResult.lit cmd false 1 "" ("redirect error: " +:+ err)), setOs o1 s0)
      | None =>
          let startTime := now o1 in
          let '(rr, o2) := Run H command1 o1 in
          let duration := now o2 - startTime in
          let result :=
            CommandResult.mk cmd (isNil (run_err rr)) (exitCodeOf (run_err rr))
              (builderString stdoutBuilder command1 rr)
              (builderString stderrBuilder command1 rr) duration ModeInterpreted in
          let s2 := setOs o2 s0 in
          (* Cache successful results (only if no redirects) *)
          if isNil (run_err rr) && bool_decide (Redirect cmd = None)
          then (Ok result,
                setCache (cache_Put (Name cmd) (Args cmd) result (time_Now s2) (cache s2)) s2)
          else (Ok result, s2)
      end
  end.

Definition executeHybrid (cmd : CommandNode) : M CommandResult.t := executeProcess cmd.

(** [mode] ranges over the three declared constants, so the [default]
    arm of the Go switch ("unknown execution mode") has no counterpart. *)
Definition ExecuteCommand (cmd : CommandNode) : M CommandResult.t := fun s =>
  let startTime := time_Now s in
  match CheckCommand H cmd with
  | Some err =>
      (Ok (CommandResult.setDuration (time_Since startTime s)
             (CommandResult.lit cmd false 1 "" ("Security violation: " +:+ err))), s)
  | None =>
      let mode := decideExecutionMode cmd s in
      (do result <- match mode with
                    | ModeInterpreted => executeInterpreted cmd
                    | ModeProcess => executeProcess cmd
                    | ModeHybrid => executeHybrid cmd
                    end;
       fun s1 =>
         (Ok (CommandResult.setMode mode
                (CommandResult.setDuration (time_Since startTime s1) result)), s1)) s
  end.

Definition executeProcessWithInput (cmd : CommandNode) (input : string)
  : M CommandResult.t := fun s =>
  let command := newCommand cmd s in
  let command1 :=
    setStderr (WBuilder stderrBuilder) (setStdout (WBuilder stdoutBuilder) command) in
  match RunWithInput H command1 input (os s) with
  | (StdinPipeFailed err, o1) =>
      (Fatal ("failed to create stdin pipe: " +:+ err), setOs o1 s)
  | (StartFailed err, o1) => (Ok (CommandResult.lit cmd false 1 "" err), setOs o1 s)
  | (StdinWriteFailed err, o1) =>
      (Fatal ("failed to write to stdin: " +:+ err), setOs o1 s)
  | (Waited rr, o1) =>
      (Ok (CommandResult.lit cmd (isNil (run_err rr)) (exitCodeOf (run_err rr))
             (builderString stdoutBuilder command1 rr)
             (builderString stderrBuilder command1 rr)), setOs o1 s)
  end.

Definition ExecuteCommandWithInput (cmd : CommandNode) (input : string)
  : M CommandResult.t := fun s =>
  let startTime := time_Now s in
  match CheckCommand H cmd with
  | Some err =>
      (Ok (CommandResult.setDuration (time_Since startTime s)
             (CommandResult.lit cmd false 1 "" ("Security violation: " +:+ err))), s)
  | None =>
      (do result <- executeProcessWithInput cmd input;
       fun s1 =>
         (Ok (CommandResult.setMode ModeProcess
                (CommandResult.setDuration (time_Since startTime s1) result)), s1)) s
  end.

(** *** Pipelines *)

Fixpoint collectPipelineCommands (node : Node) : list CommandNode :=
  match node with
  | NPipe l r => collectPipelineCommands l ++ collectPipelineCommands r
  | NCommand n => [n]
  | _ => []
  end.

(** The body of the [for i, cmd := range commands] loop, from index [i]
    on; [commands] is what is left to range over. *)
Fixpoint pipelineLoop (i : nat) (commands : list CommandNode) (previousOutput : string)
    (results : list CommandResult.t) : M PipelineResult.t :=
  match commands with
  | [] =>
      (* lastResult := results[len(results)-1] *)
      match last results with
      | None => fun s => (Panic "runtime error: index out of range [-1]", s)
      | Some lastResult =>
          ret (PipelineResult.mk true 0 (CommandResult.Output lastResult) "" results)
      end
  | cmd :: rest =>
      do result <- (if Nat.eqb i 0 then ExecuteCommand cmd
                    else ExecuteCommandWithInput cmd previousOutput);
      let results := results ++ [result] in
      if negb (CommandResult.Success result)
      then ret (PipelineResult.mk false (CommandResult.ExitCode result)
                  (CommandResult.Output result) (CommandResult.Error result) results)
      else pipelineLoop (S i) rest (CommandResult.Output result) results
  end.

Definition ExecutePipeline (left right : Node) : M PipelineResult.t :=
  pipelineLoop 0 (collectPipelineCommands (NPipe left right)) "" [].

(** *** Control flow *)

Definition evaluateCondition (condition : Node) : M bool :=
  match condition with
  | NCommand n =>
      do cmdResult <- ExecuteCommand n;
      ret (CommandResult.Success cmdResult && (CommandResult.ExitCode cmdResult =? 0))
  | _ => fun s => (Fatal ("unsupported condition node type: " +:+ typeName condition), s)
  end.

(** maxIterations := 10000 // Safety limit to prevent infinite loops *)
Definition maxIterations : nat := Z.to_nat 10000.

Definition emptyResult : ExecutionResult.t := ExecutionResult.mk false 0 "" "" 0 [].

(** The handlers below call back into Execute for their bodies; they take
    it as a parameter and the knot is tied in [ExecuteNode]. *)
Section Handlers.
Variable Execute : ScriptNode -> M ExecutionResult.t.

Definition ExecuteIf_ (condition : Node) (thenBody : ScriptNode)
      (elseBody : option ScriptNode) : M ExecutionResult.t :=
    do conditionResult <- evaluateCondition condition;
    if conditionResult then Execute thenBody
    else match elseBody with
         | Some e => Execute e
         | None => ret (ExecutionResult.mk true 0 "" "" 0 [])
         end.

Section For.
Variables (variable : string) (body : ScriptNode).

    (** [for _, item := range forNode.List] *)
Fixpoint forLoop (list : list string) (result : ExecutionResult.t)
      : M ExecutionResult.t :=
      match list with
      | [] => ret (ExecutionResult.setExitCode 0 (ExecutionResult.setSuccess true result))
      | item :: rest =>
          do _ <- (fun s => (Ok tt, setEnvManager (em_SetEnv variable item (envManager s)) s));
          do loopResult <- Execute body;
          let result :=
            ExecutionResult.appendCommands (ExecutionResult.Commands loopResult) result in
          if negb (ExecutionResult.Success loopResult)
          then ret (ExecutionResult.setExitCode (ExecutionResult.ExitCode loopResult)
                      (ExecutionResult.setSuccess false result))
          else forLoop rest result
      end.
End For.

Definition ExecuteFor_ (variable : string) (list : list string) (body : ScriptNode)
    : M ExecutionResult.t :=
    forLoop variable body list emptyResult.

Section While.
Variables (condition : Node) (body : ScriptNode).

    (** The [for { ... }] of ExecuteWhile; [remaining] is
        [maxIterations - iterations], so [remaining = 0] is the test
        [iterations >= maxIterations] and the step to [remaining - 1] is
        [iterations++]. *)
Fixpoint whileLoop (remaining : nat) (result : ExecutionResult.t)
      : M ExecutionResult.t :=
      match remaining with
      | O => fun s =>
          (Fatal ("while loop exceeded maximum iterations (" +:+ pretty maxIterations +:+ ")"), s)
      | S remaining' =>
          do conditionResult <- evaluateCondition condition;
          if negb conditionResult
          then ret (ExecutionResult.setExitCode 0 (ExecutionResult.setSuccess true result))
          else
            do loopResult <- Execute body;
            let result :=
              ExecutionResult.appendCommands (ExecutionResult.Commands loopResult) result in
            if negb (ExecutionResult.Success loopResult)
            then ret (ExecutionResult.setExitCode (ExecutionResult.ExitCode loopResult)
                        (ExecutionResult.setSuccess false result))
            else whileLoop remaining' result
      end.
End While.

Definition ExecuteWhile_ (condition : Node) (body : ScriptNode) : M ExecutionResult.t :=
    whileLoop condition body maxIterations emptyResult.
End Handlers.

(** *** Execute *)

(** What every handler arm of Execute does with the handler's result:
    append its command results and, if it failed, set [Success] and
    [ExitCode].  The [break] that follows in the Go source sits inside the
    [switch], so it leaves the switch and the [for] loop goes on with the
    next node. *)
Definition absorb (ok : bool) (code : Z) (cs : list CommandResult.t)
    (result : ExecutionResult.t) : ExecutionResult.t :=
  let result := ExecutionResult.appendCommands cs result in
  if negb ok then ExecutionResult.setExitCode code (ExecutionResult.setSuccess false result)
  else result.

Section Loop.
Variable step : Node -> ExecutionResult.t -> M ExecutionResult.t.

  (** [for _, node := range script.Nodes] *)
Fixpoint rangeNodes (nodes : list Node) (result : ExecutionResult.t)
    : M ExecutionResult.t :=
    match nodes with
    | [] => ret result
    | node :: rest => do result1 <- step node result; rangeNodes rest result1
    end.

Definition Execute_ (script : ScriptNode) : M ExecutionResult.t := fun s =>
    let startTime := time_Now s in
    (do result <- rangeNodes script emptyResult;
     fun s1 =>
       (Ok (ExecutionResult.setSuccess true
              (ExecutionResult.setDuration (time_Since startTime s1) result)), s1)) s.
End Loop.

(** One pass through the [switch n := node.(type)] of Execute. *)
Fixpoint ExecuteNode (node : Node) (result : ExecutionResult.t) {struct node}
  : M ExecutionResult.t :=
  match node with
  | NCommand n =>
      do cmdResult <- ExecuteCommand n;
      ret (absorb (CommandResult.Success cmdResult) (CommandResult.ExitCode cmdResult)
             [cmdResult] result)
  | NPipe l r =>
      do pipeResult <- ExecutePipeline l r;
      ret (absorb (PipelineResult.Success pipeResult) (PipelineResult.ExitCode pipeResult)
             (PipelineResult.Results pipeResult) result)
  | NIf condition thenBody elseBody =>
      do ifResult <- ExecuteIf_ (Execute_ ExecuteNode) condition thenBody elseBody;
      ret (absorb (ExecutionResult.Success ifResult) (ExecutionResult.ExitCode ifResult)
             (ExecutionResult.Commands ifResult) result)
  | NFor variable items body =>
      do forResult <- ExecuteFor_ (Execute_ ExecuteNode) variable items body;
      ret (absorb (ExecutionResult.Success forResult) (ExecutionResult.ExitCode forResult)
             (ExecutionResult.Commands forResult) result)
  | NWhile condition body =>
      do whileResult <- ExecuteWhile_ (Execute_ ExecuteNode) condition body;
      ret (absorb (ExecutionResult.Success whileResult) (ExecutionResult.ExitCode whileResult)
             (ExecutionResult.Commands whileResult) result)
  | NAssignment name value =>
      fun s => (Ok result, setEnvManager (em_SetEnv name value (envManager s)) s)
  | NFunction _ _ => ret result
  | NRedirect _ | NScript _ =>
      fun s => (Fatal ("unsupported node type: " +:+ typeName node), s)
  end.

Definition Execute (script : ScriptNode) : M ExecutionResult.t :=
  Execute_ ExecuteNode script.

Definition ExecuteIf (condition : Node) (thenBody : ScriptNode)
    (elseBody : option ScriptNode) : M ExecutionResult.t :=
  ExecuteIf_ Execute condition thenBody elseBody.

Definition ExecuteFor (variable : string) (items : list string) (body : ScriptNode)
  : M ExecutionResult.t :=
  ExecuteFor_ Execute variable items body.

Definition ExecuteWhile (condition : Node) (body : ScriptNode) : M ExecutionResult.t :=
  ExecuteWhile_ Execute condition body.
End Engine.

(** ** A test bench: one concrete host and start state

    The bench security checker rejects [rm]; the binaries it knows are [echo] (prints
    its arguments), [cat] (copies stdin), [false] (exit status 1), [grep]
    (exit status 2 unless given input) and [Print], an external
    program that has the name of an intrinsic; any other name cannot be
    started.  Every run takes one tick of the clock. *)

Module Bench.
Definition tick (o : OS) : OS :=
    mkOS (files o) (dirs o) (denied o) (environ o) (cwd o) (stdout o) (stderr o)
         (open_fds o) (next_fd o) (now o + 1).

Definition joinSpaces (l : list string) : string :=
    fold_right (fun x acc => if String.eqb acc "" then x else x +:+ " " +:+ acc) "" l.

Definition program (name : string) (args : list string) (input : string) : RunResult :=
    if String.eqb name "echo" then mkRun ErrNil (joinSpaces args +:+ newline) ""
    else if String.eqb name "cat" then mkRun ErrNil input ""
    else if String.eqb name "Print" then mkRun ErrNil ("external:" +:+ input) ""
    else if String.eqb name "false" then mkRun (ExitError 1) "" ""
    else if String.eqb name "grep" then
      (if String.eqb input "" then mkRun (ExitError 2) "" "usage" else mkRun ErrNil input "")
    else mkRun (OtherError ("exec: " +:+ name +:+ ": executable file not found in $PATH")) "" "".

Definition known (name : string) : bool :=
    String.eqb name "echo" || String.eqb name "cat" || String.eqb name "Print"
    || String.eqb name "false" || String.eqb name "grep".

Definition upperChar (c : Ascii.ascii) : Ascii.ascii :=
    let n := Ascii.nat_of_ascii c in
    if (Nat.leb 97 n && Nat.leb n 122)%bool then Ascii.ascii_of_nat (n - 32) else c.
Definition lowerChar (c : Ascii.ascii) : Ascii.ascii :=
    let n := Ascii.nat_of_ascii c in
    if (Nat.leb 65 n && Nat.leb n 90)%bool then Ascii.ascii_of_nat (n + 32) else c.
Definition mapString (f : Ascii.ascii -> Ascii.ascii) (s : string) : string :=
    String.string_of_list_ascii (f <$> String.list_ascii_of_string s).

Definition isSpace (c : Ascii.ascii) : bool :=
    let n := Ascii.nat_of_ascii c in
    (Nat.eqb n 32 || (Nat.leb 9 n && Nat.leb n 13))%bool.
Fixpoint trimLeft (l : list Ascii.ascii) : list Ascii.ascii :=
    match l with
    | c :: rest => if isSpace c then trimLeft rest else l
    | [] => []
    end.
Definition trim (s : string) : string :=
    String.string_of_list_ascii
      (rev (trimLeft (rev (trimLeft (String.list_ascii_of_string s))))).

Definition contains (haystack needle : string) : bool :=
    match String.index 0 needle haystack with Some _ => true | None => false end.

  (** Replacement of the non-overlapping occurrences of a non-empty [old],
      left to right; [skip] counts the bytes of a match still to drop. *)
Fixpoint replaceFrom (old new s : string) (skip : nat) : string :=
    match s with
    | EmptyString => EmptyString
    | String c rest =>
        match skip with
        | S k => replaceFrom old new rest k
        | O =>
            if (String.prefix old s && negb (String.eqb old ""))%bool
            then new +:+ replaceFrom old new rest (String.length old - 1)
            else String c (replaceFrom old new rest 0)
        end
    end.

Definition host : Host := {|
    CheckCommand := fun c =>
      if String.eqb (Name c) "rm" then Some "dangerous command: rm" else None;
    LookPath := fun name _ => known name;
    Run := fun c o => (program (Path c) (CmdArgs c) "", tick o);
    RunWithInput := fun c input o =>
      if known (Path c) then (Waited (program (Path c) (CmdArgs c) input), tick o)
      else (StartFailed ("exec: " +:+ Path c +:+ ": executable file not found in $PATH"), o);
    strings_Contains := contains;
    strings_ReplaceAll := fun s old new => replaceFrom old new s 0;
    strings_ToUpper := mapString upperChar;
    strings_ToLower := mapString lowerChar;
    strings_TrimSpace := trim
  |}.

Definition os0 : OS := {|
    files := ∅;
    dirs := {[ "/" := [] ]};
    denied := {[ "/etc/shadow" ]};
    environ := ∅;
    cwd := "/";
    stdout := "";
    stderr := "";
    open_fds := ∅;
    next_fd := 3;
    now := 0
  |}.

Definition state0 : State := {|
    envManager := mkEnv "/" {[ "HOME" := "/root" ]};
    cache := mkCache [] 1000 300;
    os := os0
  |}.

Definition cmd (name : string) (args : list string) : CommandNode :=
    mkCommand name args None.
End Bench.

(** * Vocabulary of the statements *)

(** The closed registry of intrinsic names. *)
Definition intrinsicNames : list string :=
  [ "Print"; "Println"; "Error"; "Errorln"; "ReadFile"; "WriteFile"; "ListFiles";
    "FileExists"; "Contains"; "Replace"; "ToUpper"; "ToLower"; "Trim"; "GetEnv";
    "SetEnv"; "WorkingDir"; "ChangeDir" ].

(** The intrinsics that insist on arguments, with the number they need. *)
Definition requiredArgs : list (string * nat) :=
  [ ("ReadFile", 1%nat); ("WriteFile", 2%nat); ("FileExists", 1%nat); ("Contains", 2%nat);
    ("Replace", 3%nat); ("GetEnv", 1%nat); ("SetEnv", 2%nat); ("ChangeDir", 1%nat) ].

(** The intrinsics that accept an empty argument list. *)
Definition lenientIntrinsics : list string :=
  [ "Print"; "Println"; "Error"; "Errorln"; "ToUpper"; "ToLower"; "Trim" ].


Ltac split_elem H :=
  repeat (apply elem_of_cons in H as [H|H]); [.. | by apply elem_of_nil in H].

(** How stage [i] of a pipeline is started: stage 0 through ExecuteCommand,
    with no stdin of the engine's making; every later stage through
    ExecuteCommandWithInput, which is handed the text [stdin]. *)
Definition runStage (H : Host) (i : nat) (cmd : CommandNode) (stdin : string)
  : M CommandResult.t :=
  match i with
  | O => ExecuteCommand H cmd
  | S _ => ExecuteCommandWithInput H cmd stdin
  end.

(** [StagesSucceed H i stages stdin s rs s']: from state [s], the stages
    [stages] (the first of them being stage [i], fed [stdin]) run one after
    the other, each one succeeds, each one's captured output is the stdin
    of the next; [rs] are their results in order and [s'] the state after
    the last. *)
Inductive StagesSucceed (H : Host)
  : nat -> list CommandNode -> string -> State -> list CommandResult.t -> State -> Prop :=
  | stages_done i stdin s : StagesSucceed H i [] stdin s [] s
  | stages_step i c cs stdin s r s1 rs s2 :
      runStage H i c stdin s = (Ok r, s1) ->
      CommandResult.Success r = true ->
      StagesSucceed H (S i) cs (CommandResult.Output r) s1 rs s2 ->
      StagesSucceed H i (c :: cs) stdin s (r :: rs) s2.

(** The output of the last result of [rs], or [stdin] when there is none. *)
Definition lastOutput (stdin : string) (rs : list CommandResult.t) : string :=
  match last rs with
  | Some r => CommandResult.Output r
  | None => stdin
  end.

(** One pass of a while loop: evaluate the condition, then run the body. *)
Definition iteration (H : Host) (condition : Node) (body : ScriptNode) (s : State) : State :=
  snd (Execute H body (snd (evaluateCondition H condition s))).

(** The text of the iteration-ceiling error. *)
Definition ceilingError : string := "while loop exceeded maximum iterations (10000)".

(** A result that may sit in the cache: its command had no redirect and
    its process exited successfully. *)
Definition eligible (r : CommandResult.t) : Prop :=
  Redirect (CommandResult.Command r) = None /\
  CommandResult.Success r = true /\ CommandResult.ExitCode r = 0.

Definition cacheInvariant (c : CommandCache) : Prop :=
  Forall (fun e => eligible (ce_result e)) (entries c).

(** [m] keeps the state property [I], whatever its outcome. *)
Definition preserves {A : Type} (I : State -> Prop) (m : M A) : Prop :=
  forall s, I s -> I (snd (m s)).

(** Induction on nodes; a body is covered through [Forall]. *)

Section NodeInduction.
Variable P : Node -> Prop.
Hypothesis HCommand : forall c, P (NCommand c).
Hypothesis HPipe : forall l r, P l -> P r -> P (NPipe l r).
Hypothesis HRedirect : forall r, P (NRedirect r).
Hypothesis HScript : forall nodes, Forall P nodes -> P (NScript nodes).
Hypothesis HIf : forall c th el,
  P c -> Forall P th -> match el with Some e => Forall P e | None => True end ->
  P (NIf c th el).
Hypothesis HFor : forall v items body, Forall P body -> P (NFor v items body).
Hypothesis HWhile : forall c body, P c -> Forall P body -> P (NWhile c body).
Hypothesis HAssignment : forall n v, P (NAssignment n v).
Hypothesis HFunction : forall n body, Forall P body -> P (NFunction n body).

Fixpoint Node_nested_ind (n : Node) : P n :=
  let all := fix all (l : list Node) : Forall P l :=
    match l with
    | [] => @List.Forall_nil Node P
    | x :: rest => @List.Forall_cons Node P x rest (Node_nested_ind x) (all rest)
    end in
  match n with
  | NCommand c => HCommand c
  | NPipe l r => HPipe l r (Node_nested_ind l) (Node_nested_ind r)
  | NRedirect r => HRedirect r
  | NScript nodes => HScript nodes (all nodes)
  | NIf c th el =>
      HIf c th el (Node_nested_ind c) (all th)
        (match el as o return match o with Some e => Forall P e | None => True end with
         | Some e => all e
         | None => I
         end)
  | NFor v items body => HFor v items body (all body)
  | NWhile c body => HWhile c body (Node_nested_ind c) (all body)
  | NAssignment n v => HAssignment n v
  | NFunction n body => HFunction n body (all body)
  end.
End NodeInduction.

(** * Properties *)

(** ** The monad *)

Lemma bind_Ok {A B} (m : M A) (k : A -> M B) s a s1 :
  m s = (Ok a, s1) -> bind m k s = k a s1.
Proof. unfold bind. by intros ->. Qed.

Lemma bind_Fatal {A B} (m : M A) (k : A -> M B) s e s1 :
  m s = (Fatal e, s1) -> bind m k s = (Fatal e, s1).
Proof. unfold bind. by intros ->. Qed.

Lemma bind_Panic {A B} (m : M A) (k : A -> M B) s e s1 :
  m s = (Panic e, s1) -> bind m k s = (Panic e, s1).
Proof. unfold bind. by intros ->. Qed.

Lemma bind_inv_Ok {A B} (m : M A) (k : A -> M B) s b s2 :
  bind m k s = (Ok b, s2) -> exists a s1, m s = (Ok a, s1) /\ k a s1 = (Ok b, s2).
Proof.
  unfold bind. destruct (m s) as [[a|e|e] s1]; intros Heq; try discriminate.
  by exists a, s1.
Qed.

(** ** Mode selection *)

Example intrinsicNames_count : length intrinsicNames = 17%nat.
Proof. reflexivity. Qed.

Lemma isStdLibFunction_spec (funcName : string) :
  isStdLibFunction funcName = true <-> funcName ∈ intrinsicNames.
Proof.
  unfold isStdLibFunction, stdlibFunctions.
  set (l := (fun n : string => (n, true)) <$> intrinsicNames).
  change (default false (list_to_map (M := gmap string bool) l !! funcName) = true
          <-> funcName ∈ intrinsicNames).
  assert (Hnd : NoDup l.*1) by (apply (bool_decide_unpack _); vm_compute; exact I).
  split.
  - destruct (list_to_map l !! funcName) as [b|] eqn:Hl; simpl; [|discriminate].
    intros ->. apply (elem_of_list_to_map_2 (M := gmap string)) in Hl.
    apply list_elem_of_fmap in Hl as (n & Heq & Hin). by inversion Heq; subst.
  - intros Hin.
    assert (Hl : (funcName, true) ∈ l) by (apply list_elem_of_fmap; eauto).
    apply (elem_of_list_to_map_1 (M := gmap string) _ _ _ Hnd) in Hl. by rewrite Hl.
Qed.

Lemma decideExecutionMode_eq (H : Host) (cmd : CommandNode) (s : State) :
  decideExecutionMode H cmd s =
  if isStdLibFunction (Name cmd) then ModeInterpreted else ModeProcess.
Proof.
  unfold decideExecutionMode.
  destruct (isStdLibFunction (Name cmd)); [reflexivity|].
  by destruct (isExternalCommandAvailable H (Name cmd) s).
Qed.

(** C5: decideExecutionMode answers Interpreted exactly for the 17 names of
    the intrinsic registry, whatever exec.LookPath says about a binary of
    the same name, and Process for every other name. *)
Theorem decideExecutionMode_registry (H : Host) (cmd : CommandNode) (s : State) :
  (decideExecutionMode H cmd s = ModeInterpreted <-> Name cmd ∈ intrinsicNames) /\
  (decideExecutionMode H cmd s = ModeProcess <-> Name cmd ∉ intrinsicNames) /\
  (Name cmd ∈ intrinsicNames -> LookPath H (Name cmd) (os s) = true ->
   decideExecutionMode H cmd s = ModeInterpreted).
Proof.
  rewrite decideExecutionMode_eq.
  pose proof (isStdLibFunction_spec (Name cmd)) as Hspec.
  destruct (isStdLibFunction (Name cmd)).
  - assert (Hin : Name cmd ∈ intrinsicNames) by (by apply Hspec).
    repeat split; try done.
  - assert (Hout : Name cmd ∉ intrinsicNames).
    { intros Hin. apply Hspec in Hin. discriminate. }
    repeat split; try done.
Qed.

Lemma decideExecutionMode_registry_witness :
  Name (Bench.cmd "Print" []) ∈ intrinsicNames /\
  LookPath Bench.host "Print" (os Bench.state0) = true /\
  decideExecutionMode Bench.host (Bench.cmd "Print" []) Bench.state0 = ModeInterpreted.
Proof.
  assert (Hin : Name (Bench.cmd "Print" []) ∈ intrinsicNames)
    by (apply (bool_decide_unpack _); vm_compute; exact I).
  split; [exact Hin|]. split; [reflexivity|].
  apply (decideExecutionMode_registry Bench.host (Bench.cmd "Print" []) Bench.state0);
    [exact Hin | reflexivity].
Defined.

(** ** Commands never raise an engine-level error *)

Lemma executeInterpreted_Ok (H : Host) (cmd : CommandNode) (s : State) :
  exists r s', executeInterpreted H cmd s = (Ok r, s').
Proof.
  unfold executeInterpreted.
  destruct (executeStdLibFunction H (Name cmd) (Args cmd) s) as [[res [e|]] s1]; eauto.
Qed.

Lemma executeProcess_Ok (H : Host) (cmd : CommandNode) (s : State) :
  exists r s', executeProcess H cmd s = (Ok r, s').
Proof.
  unfold executeProcess.
  destruct (cacheLookup cmd s) as [[r|] s0]; [eauto|].
  destruct (configureStdio cmd s0) as [[c [e|]] o1]; [eauto|].
  destruct (Run H c o1) as [rr o2].
  destruct (isNil (run_err rr) && bool_decide (Redirect cmd = None)); eauto.
Qed.

Lemma ExecuteCommand_Ok (H : Host) (cmd : CommandNode) (s : State) :
  exists r s', ExecuteCommand H cmd s = (Ok r, s').
Proof.
  unfold ExecuteCommand.
  destruct (CheckCommand H cmd) as [e|]; [eauto|].
  destruct (decideExecutionMode H cmd s).
  - destruct (executeInterpreted_Ok H cmd s) as (r & s' & Heq).
    erewrite bind_Ok by exact Heq. eauto.
  - destruct (executeProcess_Ok H cmd s) as (r & s' & Heq).
    erewrite bind_Ok by exact Heq. eauto.
  - destruct (executeProcess_Ok H cmd s) as (r & s' & Heq).
    unfold executeHybrid. erewrite bind_Ok by exact Heq. eauto.
Qed.

Lemma ExecuteCommand_rejected (H : Host) (cmd : CommandNode) (s : State) (e : string) :
  CheckCommand H cmd = Some e ->
  ExecuteCommand H cmd s =
  (Ok (CommandResult.mk cmd false 1 "" ("Security violation: " +:+ e) 0 ModeInterpreted), s).
Proof.
  intros Hc. unfold ExecuteCommand, time_Since, time_Now. rewrite Hc.
  unfold CommandResult.setDuration, CommandResult.lit. simpl.
  by rewrite Z.sub_diag.
Qed.

Lemma ExecuteCommand_interpreted (H : Host) (cmd : CommandNode) (s : State) r s' :
  CheckCommand H cmd = None ->
  isStdLibFunction (Name cmd) = true ->
  executeInterpreted H cmd s = (Ok r, s') ->
  ExecuteCommand H cmd s =
  (Ok (CommandResult.setMode ModeInterpreted
         (CommandResult.setDuration (time_Since (time_Now s) s') r)), s').
Proof.
  intros Hc Hstd Heq. unfold ExecuteCommand. rewrite Hc, decideExecutionMode_eq, Hstd.
  by erewrite bind_Ok by exact Heq.
Qed.


(** ** Intrinsics called with too few arguments *)

Lemma executeInterpreted_too_few (H : Host) (cmd : CommandNode) (s : State) (n : nat) :
  (Name cmd, n) ∈ requiredArgs -> (length (Args cmd) < n)%nat ->
  exists msg, executeInterpreted H cmd s = (Ok (CommandResult.lit cmd false 1 "" msg), s).
Proof.
  destruct cmd as [name args rd]. unfold requiredArgs. simpl. intros Hin Hlen.
  split_elem Hin; injection Hin as -> ->;
    destruct args as [|a0 [|a1 [|a2 args]]]; simpl in Hlen; try lia;
    eexists; reflexivity.
Qed.

Lemma executeInterpreted_no_args (H : Host) (cmd : CommandNode) (s : State) :
  Name cmd ∈ lenientIntrinsics -> Args cmd = [] ->
  exists s', executeInterpreted H cmd s = (Ok (CommandResult.lit cmd true 0 "" ""), s').
Proof.
  destruct cmd as [name args rd]. unfold lenientIntrinsics. simpl. intros Hin ->.
  split_elem Hin; subst name; eexists; reflexivity.
Qed.

Lemma requiredArgs_intrinsic (name : string) (n : nat) :
  (name, n) ∈ requiredArgs -> isStdLibFunction name = true.
Proof.
  unfold requiredArgs. intros Hin. split_elem Hin; injection Hin as -> ->; reflexivity.
Qed.

Lemma lenient_intrinsic (name : string) :
  name ∈ lenientIntrinsics -> isStdLibFunction name = true.
Proof.
  unfold lenientIntrinsics. intros Hin. split_elem Hin; subst name; reflexivity.
Qed.

(** C10: an intrinsic that requires arguments and gets too few yields a
    failed CommandResult with exit code 1 (state untouched, no engine
    error); Print, Println, Error, Errorln, ToUpper, ToLower and Trim
    called with no argument succeed with exit code 0 and empty output; in
    no case does ExecuteCommand return an engine-level error. *)
Theorem intrinsic_too_few_args (H : Host) (cmd : CommandNode) (s : State) :
  (forall n, (Name cmd, n) ∈ requiredArgs -> (length (Args cmd) < n)%nat ->
     (exists msg, executeInterpreted H cmd s = (Ok (CommandResult.lit cmd false 1 "" msg), s)) /\
     (CheckCommand H cmd = None ->
      exists r, ExecuteCommand H cmd s = (Ok r, s) /\
                CommandResult.Success r = false /\ CommandResult.ExitCode r = 1 /\
                CommandResult.Mode r = ModeInterpreted)) /\
  (Name cmd ∈ lenientIntrinsics -> Args cmd = [] ->
     (exists s', executeInterpreted H cmd s = (Ok (CommandResult.lit cmd true 0 "" ""), s')) /\
     (CheckCommand H cmd = None ->
      exists r s', ExecuteCommand H cmd s = (Ok r, s') /\
                   CommandResult.Success r = true /\ CommandResult.ExitCode r = 0 /\
                   CommandResult.Output r = "" /\ CommandResult.Mode r = ModeInterpreted)) /\
  (exists r s', ExecuteCommand H cmd s = (Ok r, s')).
Proof.
  split; [|split].
  - intros n Hin Hlen.
    destruct (executeInterpreted_too_few H cmd s n Hin Hlen) as [msg Heq].
    split; [by exists msg|]. intros Hc.
    pose proof (ExecuteCommand_interpreted H cmd s _ _ Hc
                  (requiredArgs_intrinsic _ _ Hin) Heq) as HE.
    eexists. split; [exact HE|]. done.
  - intros Hin Hargs.
    destruct (executeInterpreted_no_args H cmd s Hin Hargs) as [s' Heq].
    split; [by exists s'|]. intros Hc.
    pose proof (ExecuteCommand_interpreted H cmd s _ _ Hc
                  (lenient_intrinsic _ Hin) Heq) as HE.
    eexists _, s'. split; [exact HE|]. done.
  - apply ExecuteCommand_Ok.
Qed.

Lemma intrinsic_too_few_args_witness :
  (exists r, ExecuteCommand Bench.host (Bench.cmd "Replace" ["a"; "b"]) Bench.state0
             = (Ok r, Bench.state0) /\
             CommandResult.Success r = false /\ CommandResult.ExitCode r = 1 /\
             CommandResult.Mode r = ModeInterpreted) /\
  (exists r s', ExecuteCommand Bench.host (Bench.cmd "Println" []) Bench.state0 = (Ok r, s') /\
                CommandResult.Success r = true /\ CommandResult.ExitCode r = 0 /\
                CommandResult.Output r = "" /\ CommandResult.Mode r = ModeInterpreted).
Proof.
  split.
  - apply (intrinsic_too_few_args Bench.host (Bench.cmd "Replace" ["a"; "b"]) Bench.state0)
      with (n := 3%nat).
    + apply (bool_decide_unpack _). vm_compute. exact I.
    + simpl. lia.
    + reflexivity.
  - apply (intrinsic_too_few_args Bench.host (Bench.cmd "Println" []) Bench.state0).
    + apply (bool_decide_unpack _). vm_compute. exact I.
    + reflexivity.
    + reflexivity.
Defined.

(** ** Recoverable failures of one command *)


Lemma cacheLookup_redirect (cmd : CommandNode) (rd : RedirectNode) (s : State) :
  Redirect cmd = Some rd -> cacheLookup cmd s = (None, s).
Proof. unfold cacheLookup. by intros ->. Qed.





(** ** If *)

Lemma evaluateCondition_command (H : Host) (c : CommandNode) (s : State) :
  exists r s1, ExecuteCommand H c s = (Ok r, s1) /\
    evaluateCondition H (NCommand c) s =
    (Ok (CommandResult.Success r && (CommandResult.ExitCode r =? 0)), s1).
Proof.
  destruct (ExecuteCommand_Ok H c s) as (r & s1 & HE).
  exists r, s1. split; [exact HE|].
  unfold evaluateCondition. by erewrite bind_Ok by exact HE.
Qed.

Lemma evaluateCondition_unsupported (H : Host) (n : Node) (s : State) :
  (forall c, n <> NCommand c) ->
  evaluateCondition H n s = (Fatal ("unsupported condition node type: " +:+ typeName n), s).
Proof. intros Hn. destruct n; try reflexivity. by destruct (Hn c). Qed.

(** The handlers Execute dispatches to are ExecuteIf, ExecuteFor and
    ExecuteWhile themselves. *)
Lemma ExecuteNode_dispatch (H : Host) (result : ExecutionResult.t) :
  (forall c th el,
     ExecuteNode H (NIf c th el) result =
     (do r <- ExecuteIf H c th el;
      ret (absorb (ExecutionResult.Success r) (ExecutionResult.ExitCode r)
             (ExecutionResult.Commands r) result))) /\
  (forall v items body,
     ExecuteNode H (NFor v items body) result =
     (do r <- ExecuteFor H v items body;
      ret (absorb (ExecutionResult.Success r) (ExecutionResult.ExitCode r)
             (ExecutionResult.Commands r) result))) /\
  (forall c body,
     ExecuteNode H (NWhile c body) result =
     (do r <- ExecuteWhile H c body;
      ret (absorb (ExecutionResult.Success r) (ExecutionResult.ExitCode r)
             (ExecutionResult.Commands r) result))).
Proof. by repeat split. Qed.

(** C8: ExecuteIf runs the condition as a command, takes it as true when
    the result has success and exit code 0, then runs the then-body, or the
    else-body when there is one, or returns the empty success result; a
    condition that is not a CommandNode is an engine-level error. *)
Theorem ExecuteIf_spec (H : Host) (condition : Node) (thenBody : ScriptNode)
    (elseBody : option ScriptNode) (s : State) :
  match condition with
  | NCommand c =>
      exists r s1, ExecuteCommand H c s = (Ok r, s1) /\
        ExecuteIf H condition thenBody elseBody s =
        if CommandResult.Success r && (CommandResult.ExitCode r =? 0)
        then Execute H thenBody s1
        else match elseBody with
             | Some e => Execute H e s1
             | None => (Ok (ExecutionResult.mk true 0 "" "" 0 []), s1)
             end
  | _ =>
      ExecuteIf H condition thenBody elseBody s =
      (Fatal ("unsupported condition node type: " +:+ typeName condition), s)
  end.
Proof.
  destruct condition;
    try (unfold ExecuteIf, ExecuteIf_;
         erewrite bind_Fatal by (by apply evaluateCondition_unsupported); reflexivity).
  destruct (evaluateCondition_command H c s) as (r & s1 & HE & Hcond).
  exists r, s1. split; [exact HE|].
  unfold ExecuteIf, ExecuteIf_. erewrite bind_Ok by exact Hcond.
  destruct (CommandResult.Success r && (CommandResult.ExitCode r =? 0)); [reflexivity|].
  by destruct elseBody.
Qed.

(** ** Pipelines *)

Lemma pipelineLoop_cons (H : Host) i cmd rest previousOutput results :
  pipelineLoop H i (cmd :: rest) previousOutput results =
  (do result <- runStage H i cmd previousOutput;
   let results := results ++ [result] in
   if negb (CommandResult.Success result)
   then ret (PipelineResult.mk false (CommandResult.ExitCode result)
               (CommandResult.Output result) (CommandResult.Error result) results)
   else pipelineLoop H (S i) rest (CommandResult.Output result) results).
Proof. by destruct i. Qed.

Lemma lastOutput_snoc stdin rs r : lastOutput stdin (rs ++ [r]) = CommandResult.Output r.
Proof. unfold lastOutput. by rewrite last_snoc. Qed.

Lemma pipelineLoop_all_succeed (H : Host) i stages stdin s rs s' :
  StagesSucceed H i stages stdin s rs s' ->
  forall acc lastR, last (acc ++ rs) = Some lastR ->
  pipelineLoop H i stages stdin acc s =
  (Ok (PipelineResult.mk true 0 (CommandResult.Output lastR) "" (acc ++ rs)), s').
Proof.
  induction 1 as [i stdin s | i c cs stdin s r s1 rs s2 Hrun Hok _ IH];
    intros acc lastR Hlast.
  - rewrite app_nil_r in *. simpl. by rewrite Hlast.
  - rewrite pipelineLoop_cons. erewrite bind_Ok by exact Hrun.
    cbv zeta. rewrite Hok. cbn [negb].
    rewrite (IH (acc ++ [r]) lastR); rewrite <- app_assoc; simpl; done.
Qed.

Lemma pipelineLoop_first_failure (H : Host) i pre stdin s rs s1 :
  StagesSucceed H i pre stdin s rs s1 ->
  forall acc c post r s2,
  runStage H (i + length pre) c (lastOutput stdin rs) s1 = (Ok r, s2) ->
  CommandResult.Success r = false ->
  pipelineLoop H i (pre ++ c :: post) stdin acc s =
  (Ok (PipelineResult.mk false (CommandResult.ExitCode r) (CommandResult.Output r)
         (CommandResult.Error r) (acc ++ rs ++ [r])), s2).
Proof.
  induction 1 as [i stdin s | i c0 cs stdin s r0 s1 rs s2 Hrun Hok Hrest IH];
    intros acc c post r s3 Hstage Hfail.
  - simpl app. rewrite pipelineLoop_cons.
    simpl in Hstage. rewrite Nat.add_0_r in Hstage. unfold lastOutput in Hstage.
    simpl in Hstage. erewrite bind_Ok by exact Hstage.
    cbv zeta. rewrite Hfail. reflexivity.
  - simpl app. rewrite pipelineLoop_cons. erewrite bind_Ok by exact Hrun.
    cbv zeta. rewrite Hok. cbn [negb].
    rewrite (IH (acc ++ [r0]) c post r s3); [by rewrite <- app_assoc| |done].
    simpl in Hstage. rewrite Nat.add_succ_r in Hstage.
    replace (lastOutput (CommandResult.Output r0) rs) with (lastOutput stdin (r0 :: rs));
      [done|].
    unfold lastOutput. destruct rs as [|r1 rs]; [done|]. simpl.
    destruct (last (r1 :: rs)) eqn:Hl; [done|]. by apply last_None in Hl.
Qed.

(** C2: the stage list of a pipeline is the in-order flattening of the
    PipeNode tree; stage 0 is run by ExecuteCommand and every later stage
    by ExecuteCommandWithInput on the captured output of the stage before
    it; at the first failing stage the pipeline returns that stage's exit
    code, output and error with the results so far, in the state that stage
    left; when all stages succeed it returns exit code 0 and the last
    stage's output. *)
Theorem ExecutePipeline_spec (H : Host) (left right : Node) (s : State) :
  let stages := collectPipelineCommands (NPipe left right) in
  stages = collectPipelineCommands left ++ collectPipelineCommands right /\
  (forall c, collectPipelineCommands (NCommand c) = [c]) /\
  (forall c stdin, runStage H 0 c stdin = ExecuteCommand H c) /\
  (forall i c stdin, runStage H (S i) c stdin = ExecuteCommandWithInput H c stdin) /\
  (forall rs s' lastR,
     StagesSucceed H 0 stages "" s rs s' -> last rs = Some lastR ->
     ExecutePipeline H left right s =
     (Ok (PipelineResult.mk true 0 (CommandResult.Output lastR) "" rs), s')) /\
  (forall pre c post rs s1 r s2,
     stages = pre ++ c :: post ->
     StagesSucceed H 0 pre "" s rs s1 ->
     runStage H (length pre) c (lastOutput "" rs) s1 = (Ok r, s2) ->
     CommandResult.Success r = false ->
     ExecutePipeline H left right s =
     (Ok (PipelineResult.mk false (CommandResult.ExitCode r) (CommandResult.Output r)
            (CommandResult.Error r) (rs ++ [r])), s2)).
Proof.
  intros stages. repeat split.
  - intros rs s' lastR Hrun Hlast. unfold ExecutePipeline. fold stages.
    by rewrite (pipelineLoop_all_succeed H 0 stages "" s rs s' Hrun [] lastR).
  - intros pre c post rs s1 r s2 Hsplit Hrun Hstage Hfail.
    unfold ExecutePipeline. fold stages. rewrite Hsplit.
    by rewrite (pipelineLoop_first_failure H 0 pre "" s rs s1 Hrun [] c post r s2).
Qed.

Lemma ExecutePipeline_spec_witness :
  (exists res s',
     ExecutePipeline Bench.host (NCommand (Bench.cmd "echo" ["hi"]))
       (NCommand (Bench.cmd "cat" [])) Bench.state0 = (Ok res, s') /\
     PipelineResult.Success res = true /\ PipelineResult.ExitCode res = 0 /\
     PipelineResult.Output res = "hi" +:+ newline /\
     length (PipelineResult.Results res) = 2%nat) /\
  (exists res s',
     ExecutePipeline Bench.host
       (NPipe (NCommand (Bench.cmd "echo" ["hi"])) (NCommand (Bench.cmd "false" [])))
       (NCommand (Bench.cmd "cat" [])) Bench.state0 = (Ok res, s') /\
     PipelineResult.Success res = false /\ PipelineResult.ExitCode res = 1 /\
     length (PipelineResult.Results res) = 2%nat).
Proof.
  split.
  - destruct (ExecutePipeline_spec Bench.host (NCommand (Bench.cmd "echo" ["hi"]))
                (NCommand (Bench.cmd "cat" [])) Bench.state0)
      as (_ & _ & _ & _ & Hall & _).
    eexists _, _. split.
    + apply Hall.
      * eapply stages_step; [vm_compute; reflexivity | reflexivity |].
        eapply stages_step; [vm_compute; reflexivity | reflexivity |].
        apply stages_done.
      * reflexivity.
    + vm_compute. done.
  - destruct (ExecutePipeline_spec Bench.host
                (NPipe (NCommand (Bench.cmd "echo" ["hi"])) (NCommand (Bench.cmd "false" [])))
                (NCommand (Bench.cmd "cat" [])) Bench.state0)
      as (_ & _ & _ & _ & _ & Hfail).
    eexists _, _. split.
    + eapply Hfail with (pre := [Bench.cmd "echo" ["hi"]]) (c := Bench.cmd "false" [])
                          (post := [Bench.cmd "cat" []]).
      * reflexivity.
      * eapply stages_step; [vm_compute; reflexivity | reflexivity |].
        apply stages_done.
      * vm_compute. reflexivity.
      * reflexivity.
    + vm_compute. done.
Defined.

(** Conversely, a PipelineResult can only come about in one of two ways:
    every stage succeeded, or some stage was the first to fail. *)
Lemma pipelineLoop_inv (H : Host) (commands : list CommandNode) :
  forall i stdin acc s res s',
  pipelineLoop H i commands stdin acc s = (Ok res, s') ->
  (exists rs lastR,
     StagesSucceed H i commands stdin s rs s' /\ last (acc ++ rs) = Some lastR /\
     res = PipelineResult.mk true 0 (CommandResult.Output lastR) "" (acc ++ rs)) \/
  (exists pre c post rs s1 r,
     commands = pre ++ c :: post /\ StagesSucceed H i pre stdin s rs s1 /\
     runStage H (i + length pre) c (lastOutput stdin rs) s1 = (Ok r, s') /\
     CommandResult.Success r = false /\
     res = PipelineResult.mk false (CommandResult.ExitCode r) (CommandResult.Output r)
             (CommandResult.Error r) (acc ++ rs ++ [r])).
Proof.
  induction commands as [|c cs IH]; intros i stdin acc s res s' Hrun.
  - left. simpl in Hrun. destruct (last acc) as [lastR|] eqn:Hlast; [|discriminate].
    injection Hrun as <- <-. exists [], lastR. rewrite app_nil_r.
    split; [constructor|done].
  - rewrite pipelineLoop_cons in Hrun.
    apply bind_inv_Ok in Hrun as (r & s1 & Hstage & Hrest). cbv zeta in Hrest.
    destruct (CommandResult.Success r) eqn:Hok; cbn [negb] in Hrest.
    + apply IH in Hrest
        as [(rs & lastR & Hsucc & Hlast & ->)
           |(pre & c' & post & rs & s2 & r' & -> & Hsucc & Hstage' & Hfail & ->)].
      * left. exists (r :: rs), lastR. rewrite <- !app_assoc in *. simpl in *.
        split; [by econstructor|done].
      * right. exists (c :: pre), c', post, (r :: rs), s2, r'.
        split; [done|]. split; [by econstructor|].
        split; [|split; [done|by rewrite <- app_assoc]].
        simpl. rewrite Nat.add_succ_r.
        replace (lastOutput stdin (r :: rs)) with (lastOutput (CommandResult.Output r) rs);
          [done|].
        unfold lastOutput. destruct rs as [|r1 rs]; [done|]. simpl.
        destruct (last (r1 :: rs)) eqn:Hl; [done|]. by apply last_None in Hl.
    + right. injection Hrest as <- <-.
      exists [], c, cs, [], s, r. simpl. rewrite Nat.add_0_r.
      split; [done|]. split; [constructor|]. by split.
Qed.

Lemma ExecutePipeline_no_stage (H : Host) (left right : Node) (s : State) :
  collectPipelineCommands (NPipe left right) = [] ->
  ExecutePipeline H left right s = (Panic "runtime error: index out of range [-1]", s).
Proof. unfold ExecutePipeline. by intros ->. Qed.

(** ** Later pipeline stages *)

Lemma append_empty_r (s : string) : s +:+ "" = s.
Proof. induction s as [|a s IH]; [reflexivity|]. exact (f_equal (String a) IH). Qed.

Lemma ExecuteCommandWithInput_rejected (H : Host) cmd input s e :
  CheckCommand H cmd = Some e ->
  ExecuteCommandWithInput H cmd input s =
  (Ok (CommandResult.mk cmd false 1 "" ("Security violation: " +:+ e) 0 ModeInterpreted), s).
Proof.
  intros Hc. unfold ExecuteCommandWithInput, time_Since, time_Now. rewrite Hc.
  unfold CommandResult.setDuration, CommandResult.lit. simpl. by rewrite Z.sub_diag.
Qed.

Lemma ExecuteCommandWithInput_cache_blind (H : Host) cmd input s c' :
  ExecuteCommandWithInput H cmd input (setCache c' s) =
  (fst (ExecuteCommandWithInput H cmd input s),
   setCache c' (snd (ExecuteCommandWithInput H cmd input s))).
Proof.
  unfold ExecuteCommandWithInput. destruct (CheckCommand H cmd) as [e|]; [done|].
  unfold bind, executeProcessWithInput, newCommand, time_Since, time_Now. simpl.
  by destruct (RunWithInput H _ input (os s)) as [[e|e|e|rr] o1].
Qed.

Lemma ExecuteCommandWithInput_cache_kept (H : Host) cmd input s :
  cache (snd (ExecuteCommandWithInput H cmd input s)) = cache s.
Proof.
  unfold ExecuteCommandWithInput. destruct (CheckCommand H cmd) as [e|]; [done|].
  unfold bind, executeProcessWithInput.
  by destruct (RunWithInput H _ input (os s)) as [[e|e|e|rr] o1].
Qed.

(** C9 (as amended): every stage after the first goes through
    ExecuteCommandWithInput, which never reads nor writes the command
    cache and never selects a mode: a stage the security checker accepts is
    handed to os/exec, whatever its name, and any result that comes back is
    stamped ModeProcess; a stage the checker rejects is not started at all and
    its failed result (exit code 1) keeps the zero Mode value. *)
Theorem ExecuteCommandWithInput_bypass (H : Host) (cmd : CommandNode) (input : string)
    (s : State) :
  let run := ExecuteCommandWithInput H cmd input s in
  (forall i rest results,
     pipelineLoop H (S i) (cmd :: rest) input results =
     (do result <- ExecuteCommandWithInput H cmd input;
      if negb (CommandResult.Success result)
      then ret (PipelineResult.mk false (CommandResult.ExitCode result)
                  (CommandResult.Output result) (CommandResult.Error result)
                  (results ++ [result]))
      else pipelineLoop H (S (S i)) rest (CommandResult.Output result)
             (results ++ [result]))) /\
  cache (snd run) = cache s /\
  (forall c', ExecuteCommandWithInput H cmd input (setCache c' s) =
              (fst run, setCache c' (snd run))) /\
  (CheckCommand H cmd = None ->
   exists ir o1,
     RunWithInput H
       (setStderr (WBuilder stderrBuilder)
          (setStdout (WBuilder stdoutBuilder) (newCommand cmd s))) input (os s) = (ir, o1) /\
     snd run = setOs o1 s /\
     match ir with
     | Waited rr =>
         exists r, fst run = Ok r /\ CommandResult.Mode r = ModeProcess /\
           CommandResult.Success r = isNil (run_err rr) /\
           CommandResult.ExitCode r = exitCodeOf (run_err rr) /\
           CommandResult.Output r = wrote_out rr /\ CommandResult.Error r = wrote_err rr
     | StartFailed e =>
         exists r, fst run = Ok r /\ CommandResult.Mode r = ModeProcess /\
           CommandResult.Success r = false /\ CommandResult.ExitCode r = 1 /\
           CommandResult.Error r = e
     | StdinPipeFailed e => fst run = Fatal ("failed to create stdin pipe: " +:+ e)
     | StdinWriteFailed e => fst run = Fatal ("failed to write to stdin: " +:+ e)
     end) /\
  (forall e, CheckCommand H cmd = Some e ->
     run = (Ok (CommandResult.mk cmd false 1 "" ("Security violation: " +:+ e) 0
                  ModeInterpreted), s)).
Proof.
  intros run. split; [done|]. split; [apply ExecuteCommandWithInput_cache_kept|].
  split; [apply ExecuteCommandWithInput_cache_blind|]. split.
  - intros Hc. subst run. unfold ExecuteCommandWithInput. rewrite Hc.
    unfold bind, executeProcessWithInput.
    destruct (RunWithInput H _ input (os s)) as [ir o1] eqn:Hrun.
    exists ir, o1. split; [done|].
    destruct ir as [e|e|e|rr]; simpl; split; try done.
    + eexists. split; [reflexivity|]. done.
    + eexists. split; [reflexivity|]. simpl. unfold builderString. simpl.
      by rewrite append_empty_r.
  - intros e Hc. by apply ExecuteCommandWithInput_rejected.
Qed.

Lemma ExecuteCommandWithInput_bypass_witness :
  exists r s',
    ExecuteCommandWithInput Bench.host (Bench.cmd "Print" ["ignored"]) "fed" Bench.state0
      = (Ok r, s') /\
    CommandResult.Mode r = ModeProcess /\ CommandResult.Output r = "external:fed" /\
    stdout (os s') = "" /\ cache s' = cache Bench.state0.
Proof.
  destruct (ExecuteCommandWithInput_bypass Bench.host (Bench.cmd "Print" ["ignored"])
              "fed" Bench.state0) as (_ & Hcache & _ & Hrun & _).
  destruct (Hrun eq_refl) as (ir & o1 & Horacle & Hstate & Hres).
  vm_compute in Horacle. injection Horacle as <- <-.
  destruct Hres as (r & Hfst & Hmode & _ & _ & Hout & _).
  exists r, (snd (ExecuteCommandWithInput Bench.host (Bench.cmd "Print" ["ignored"]) "fed"
                    Bench.state0)).
  split; [by rewrite <- Hfst, <- surjective_pairing|].
  split; [exact Hmode|]. split; [exact Hout|].
  split; [by rewrite Hstate|exact Hcache].
Defined.

(** C9 as first stated fails: a later stage the security checker rejects is
    neither started nor stamped ModeProcess. *)
Lemma later_stage_not_always_process :
  ~ (forall (H : Host) (left right : Node) (s : State) res s',
       ExecutePipeline H left right s = (Ok res, s') ->
       forall i r, (0 < i)%nat -> PipelineResult.Results res !! i = Some r ->
                   CommandResult.Mode r = ModeProcess).
Proof.
  intros Hall.
  pose (res := PipelineResult.mk false 1 "" "Security violation: dangerous command: rm"
    [ CommandResult.mk (Bench.cmd "echo" ["hi"]) true 0 ("hi" +:+ newline) "" 1 ModeProcess;
      CommandResult.mk (Bench.cmd "rm" ["x"]) false 1 ""
        "Security violation: dangerous command: rm" 0 ModeInterpreted ]).
  assert (Hrun : exists s', ExecutePipeline Bench.host (NCommand (Bench.cmd "echo" ["hi"]))
                    (NCommand (Bench.cmd "rm" ["x"])) Bench.state0 = (Ok res, s')).
  { eexists. vm_compute. reflexivity. }
  destruct Hrun as [s' Hrun].
  specialize (Hall _ _ _ _ _ _ Hrun 1%nat _ (Nat.lt_0_1) eq_refl).
  discriminate Hall.
Qed.

(** ** Execute and failing nodes *)

Lemma Execute_reports_success (H : Host) (script : ScriptNode) (s : State) r s' :
  Execute H script s = (Ok r, s') -> ExecutionResult.Success r = true.
Proof.
  unfold Execute, Execute_. intros Heq.
  apply bind_inv_Ok in Heq as (a & s1 & _ & Hret). by injection Hret as <- <-.
Qed.

Lemma absorb_length ok code cs result :
  length (ExecutionResult.Commands (absorb ok code cs result)) =
  (length (ExecutionResult.Commands result) + length cs)%nat.
Proof. unfold absorb. destruct ok; simpl; by rewrite length_app. Qed.

Lemma rangeNodes_commands (H : Host) (cmds : list CommandNode) :
  forall result s, exists r s',
    rangeNodes (ExecuteNode H) (NCommand <$> cmds) result s = (Ok r, s') /\
    length (ExecutionResult.Commands r) =
    (length (ExecutionResult.Commands result) + length cmds)%nat.
Proof.
  induction cmds as [|c cmds IH]; intros result s.
  - exists result, s. split; [done|]. simpl. lia.
  - destruct (ExecuteCommand_Ok H c s) as (r0 & s1 & HE).
    destruct (IH (absorb (CommandResult.Success r0) (CommandResult.ExitCode r0) [r0] result)
                 s1) as (r & s' & Hrest & Hlen).
    exists r, s'. split.
    + change (bind (ExecuteNode H (NCommand c) result)
                (fun r1 => rangeNodes (ExecuteNode H) (NCommand <$> cmds) r1) s = (Ok r, s')).
      erewrite bind_Ok; [exact Hrest|].
      simpl. by erewrite bind_Ok by exact HE.
    + rewrite Hlen, absorb_length. simpl. lia.
Qed.

(** Whatever fails on the way, a script of commands is run to its end:
    every command contributes a result and the final verdict is success. *)
Lemma Execute_runs_every_command (H : Host) (cmds : list CommandNode) (s : State) :
  exists r s', Execute H (NCommand <$> cmds) s = (Ok r, s') /\
    ExecutionResult.Success r = true /\
    length (ExecutionResult.Commands r) = length cmds.
Proof.
  destruct (rangeNodes_commands H cmds emptyResult s) as (r & s' & Hrun & Hlen).
  eexists _, s'. split; [|split].
  - unfold Execute, Execute_. erewrite bind_Ok by exact Hrun. reflexivity.
  - reflexivity.
  - simpl. by rewrite Hlen.
Qed.

(** C1 (the code at a failing input): three commands of which the second
    is rejected by the security checker.  Execute goes on to the third command and
    reports success=true with three command results; the exit code keeps
    the 1 of the rejected command. *)
Theorem Execute_runs_past_failure :
  exists r s' r2,
    Execute Bench.host
      [ NCommand (Bench.cmd "Print" ["a"]); NCommand (Bench.cmd "rm" ["x"]);
        NCommand (Bench.cmd "Print" ["b"]) ] Bench.state0 = (Ok r, s') /\
    ExecutionResult.Commands r !! 1%nat = Some r2 /\
    CommandResult.Success r2 = false /\ CommandResult.ExitCode r2 = 1 /\
    ExecutionResult.Success r = true /\
    ExecutionResult.ExitCode r = 1 /\
    length (ExecutionResult.Commands r) = 3%nat /\
    stdout (os s') = "ab".
Proof. eexists _, _, _. split; [vm_compute; reflexivity|]. vm_compute. done. Qed.

(** ** The iteration ceiling of while *)

Lemma ceilingError_eq :
  "while loop exceeded maximum iterations (" +:+ pretty maxIterations +:+ ")" = ceilingError.
Proof. vm_compute. reflexivity. Qed.

Lemma whileLoop_ceiling (H : Host) (condition : Node) (body : ScriptNode) (n : nat) :
  forall result s,
  (forall k, (k < n)%nat ->
     fst (evaluateCondition H condition (Nat.iter k (iteration H condition body) s))
       = Ok true /\
     exists r, fst (Execute H body
                      (snd (evaluateCondition H condition
                              (Nat.iter k (iteration H condition body) s)))) = Ok r) ->
  whileLoop H (Execute H) condition body n result s =
  (Fatal ceilingError, Nat.iter n (iteration H condition body) s).
Proof.
  induction n as [|n IH]; intros result s Hk.
  - simpl. by rewrite ceilingError_eq.
  - destruct (Hk 0%nat ltac:(lia)) as (Hcond & r & Hbody). simpl in Hcond, Hbody.
    destruct (evaluateCondition H condition s) as [c s1] eqn:Hc. simpl in Hcond, Hbody.
    subst c.
    destruct (Execute H body s1) as [b s2] eqn:Hb. simpl in Hbody. subst b.
    pose proof (Execute_reports_success H body s1 r s2 Hb) as Hok.
    cbn [whileLoop]. erewrite bind_Ok by exact Hc. cbn [negb].
    erewrite bind_Ok by exact Hb. cbv zeta. rewrite Hok. cbn [negb].
    rewrite Nat.iter_succ_r.
    assert (Hs2 : iteration H condition body s = s2).
    { unfold iteration. rewrite Hc. simpl. by rewrite Hb. }
    rewrite Hs2. apply IH. intros k Hlt.
    specialize (Hk (S k) ltac:(lia)). rewrite Nat.iter_succ_r, Hs2 in Hk. exact Hk.
Qed.

(** A condition that holds through the first 10,000 passes, with a body
    that raises no engine error: ExecuteWhile evaluates the condition and
    runs the body exactly 10,000 times and then stops with the ceiling
    error. *)
Lemma ExecuteWhile_ceiling (H : Host) (condition : Node) (body : ScriptNode) (s : State) :
  (forall k, (k < maxIterations)%nat ->
     fst (evaluateCondition H condition (Nat.iter k (iteration H condition body) s))
       = Ok true /\
     exists r, fst (Execute H body
                      (snd (evaluateCondition H condition
                              (Nat.iter k (iteration H condition body) s)))) = Ok r) ->
  ExecuteWhile H condition body s =
  (Fatal ceilingError, Nat.iter maxIterations (iteration H condition body) s).
Proof. intros Hk. unfold ExecuteWhile, ExecuteWhile_. by apply whileLoop_ceiling. Qed.

(** A condition that turns false at pass [n] below the ceiling ends the
    loop normally: the ceiling error does not come earlier. *)
Lemma whileLoop_exit (H : Host) (condition : Node) (body : ScriptNode) (n : nat) :
  forall m result s,
  (forall k, (k < n)%nat ->
     fst (evaluateCondition H condition (Nat.iter k (iteration H condition body) s))
       = Ok true /\
     exists r, fst (Execute H body
                      (snd (evaluateCondition H condition
                              (Nat.iter k (iteration H condition body) s)))) = Ok r) ->
  fst (evaluateCondition H condition (Nat.iter n (iteration H condition body) s)) = Ok false ->
  (n < m)%nat ->
  exists r, fst (whileLoop H (Execute H) condition body m result s) = Ok r /\
            ExecutionResult.Success r = true /\ ExecutionResult.ExitCode r = 0.
Proof.
  induction n as [|n IH]; intros m result s Hk Hfalse Hlt.
  - destruct m as [|m]; [lia|]. simpl in Hfalse.
    destruct (evaluateCondition H condition s) as [c s1] eqn:Hc. simpl in Hfalse. subst c.
    cbn [whileLoop]. erewrite bind_Ok by exact Hc. cbn [negb]. eexists. by split.
  - destruct m as [|m]; [lia|].
    destruct (Hk 0%nat ltac:(lia)) as (Hcond & r & Hbody). simpl in Hcond, Hbody.
    destruct (evaluateCondition H condition s) as [c s1] eqn:Hc. simpl in Hcond, Hbody.
    subst c.
    destruct (Execute H body s1) as [b s2] eqn:Hb. simpl in Hbody. subst b.
    pose proof (Execute_reports_success H body s1 r s2 Hb) as Hok.
    cbn [whileLoop]. erewrite bind_Ok by exact Hc. cbn [negb].
    erewrite bind_Ok by exact Hb. cbv zeta. rewrite Hok. cbn [negb].
    assert (Hs2 : iteration H condition body s = s2).
    { unfold iteration. rewrite Hc. simpl. by rewrite Hb. }
    apply IH; [|by rewrite Nat.iter_succ_r, Hs2 in Hfalse|lia].
    intros k Hlt'. specialize (Hk (S k) ltac:(lia)).
    by rewrite Nat.iter_succ_r, Hs2 in Hk.
Qed.

Lemma Bench_rm_body_fails (s : State) :
  Execute Bench.host [NCommand (Bench.cmd "rm" ["x"])] s =
  (Ok (ExecutionResult.mk true 1 "" "" 0
         [CommandResult.mk (Bench.cmd "rm" ["x"]) false 1 ""
            "Security violation: dangerous command: rm" 0 ModeInterpreted]), s).
Proof.
  set (c := Bench.cmd "rm" ["x"]).
  set (r0 := CommandResult.mk c false 1 "" "Security violation: dangerous command: rm" 0
               ModeInterpreted).
  assert (Hstep : ExecuteNode Bench.host (NCommand c) emptyResult s =
                  (Ok (absorb false 1 [r0] emptyResult), s)).
  { cbn [ExecuteNode].
    erewrite bind_Ok by (by apply ExecuteCommand_rejected). reflexivity. }
  assert (Hrange : rangeNodes (ExecuteNode Bench.host) [NCommand c] emptyResult s =
                   (Ok (absorb false 1 [r0] emptyResult), s)).
  { cbn [rangeNodes]. erewrite bind_Ok by exact Hstep. reflexivity. }
  unfold Execute, Execute_. erewrite bind_Ok by exact Hrange.
  unfold time_Since, time_Now. rewrite Z.sub_diag. reflexivity.
Qed.

Lemma Bench_print_condition_true (s : State) :
  fst (evaluateCondition Bench.host (NCommand (Bench.cmd "Print" [""])) s) = Ok true.
Proof.
  pose proof (ExecuteCommand_interpreted Bench.host (Bench.cmd "Print" [""]) s _ _
                eq_refl eq_refl eq_refl) as HE.
  unfold evaluateCondition. erewrite bind_Ok by exact HE. reflexivity.
Qed.

(** C3 (the code at a failing input): a while loop whose condition always
    holds and whose body fails at every pass (the security checker rejects its only
    command).  ExecuteWhile does not return a failing ExecutionResult: it
    keeps going for 10,000 passes and ends in the ceiling error. *)
Theorem ExecuteWhile_failing_body_hits_ceiling :
  let condition := NCommand (Bench.cmd "Print" [""]) in
  let body := [NCommand (Bench.cmd "rm" ["x"])] in
  (forall s, exists r0,
     ExecuteCommand Bench.host (Bench.cmd "rm" ["x"]) s = (Ok r0, s) /\
     CommandResult.Success r0 = false /\ CommandResult.ExitCode r0 = 1) /\
  (forall s, fst (evaluateCondition Bench.host condition s) = Ok true) /\
  ExecuteWhile Bench.host condition body Bench.state0 =
  (Fatal "while loop exceeded maximum iterations (10000)",
   Nat.iter maxIterations (iteration Bench.host condition body) Bench.state0).
Proof.
  intros condition body. split; [|split].
  - intros s. eexists. split; [by apply ExecuteCommand_rejected|done].
  - apply Bench_print_condition_true.
  - apply ExecuteWhile_ceiling. intros k _. split.
    + apply Bench_print_condition_true.
    + eexists. subst body. by rewrite Bench_rm_body_fails.
Qed.

(** ** Redirection *)

Lemma executeInterpreted_ignores_redirect (H : Host) name args rd rd' s :
  snd (executeInterpreted H (mkCommand name args rd) s) =
  snd (executeInterpreted H (mkCommand name args rd') s) /\
  match fst (executeInterpreted H (mkCommand name args rd) s),
        fst (executeInterpreted H (mkCommand name args rd') s) with
  | Ok r, Ok r' =>
      CommandResult.Success r = CommandResult.Success r' /\
      CommandResult.ExitCode r = CommandResult.ExitCode r' /\
      CommandResult.Output r = CommandResult.Output r' /\
      CommandResult.Error r = CommandResult.Error r'
  | _, _ => False
  end.
Proof.
  unfold executeInterpreted. simpl.
  by destruct (executeStdLibFunction H name args s) as [[res [e|]] s1].
Qed.

(** Every file setupRedirect opens is closed again when it returns, on the
    error paths as well as on success. *)
Lemma setupRedirect_releases_handles (c : Cmd) (rd : RedirectNode) (o : OS) :
  next_fd o ∉ open_fds o ->
  open_fds (snd (setupRedirect c rd o)) = open_fds o.
Proof.
  intros Hfresh.
  assert (Hclose : ({[next_fd o]} ∪ open_fds o) ∖ {[next_fd o]} = open_fds o)
    by set_solver.
  unfold setupRedirect, os_Create, os_OpenFileAppend, os_Open, allocFile.
  destruct (String.eqb (Op rd) ">");
    [by destruct (decide (File rd ∈ denied o))|].
  destruct (String.eqb (Op rd) ">>");
    [by destruct (decide (File rd ∈ denied o))|].
  destruct (String.eqb (Op rd) "<");
    [by destruct (decide (File rd ∈ denied o)), (files o !! File rd)|].
  destruct (String.eqb (Op rd) "2>&1"); [done|].
  destruct (String.eqb (Op rd) "&>"); [|done].
  by destruct (decide (File rd ∈ denied o)).
Qed.

(** So the file a successful [>] binds to the command's stdout is already
    closed when [command.Run()] is reached. *)
Lemma setupRedirect_binds_closed_file (c : Cmd) (rd : RedirectNode) (o : OS) c' o' f :
  Op rd = ">" -> Fd rd = 1 ->
  setupRedirect c rd o = (c', None, o') ->
  Stdout c' = WFile f ->
  f_name f = File rd /\ (f_fd f ∉ open_fds o') /\ files o' !! File rd = Some "".
Proof.
  intros Hop Hfd. unfold setupRedirect. rewrite Hop. simpl.
  unfold os_Create, allocFile. destruct (decide (File rd ∈ denied o)); [discriminate|].
  unfold bindOutput. rewrite Hfd. simpl. intros [= <- <-]. simpl. intros [= <-].
  simpl. split; [done|]. split; [set_solver|]. by rewrite lookup_insert_eq.
Qed.

(** C7 (the code at a failing input): Print "X" > f, then Print "X" >> f.
    Print is an intrinsic, the interpreted path never looks at the
    redirect: both commands succeed, "X" goes to the engine's stdout twice
    and no file f exists afterwards. *)
Theorem Print_redirect_writes_no_file :
  let write := mkCommand "Print" ["X"] (Some (mkRedirect ">" "f" 1)) in
  let append := mkCommand "Print" ["X"] (Some (mkRedirect ">>" "f" 1)) in
  exists r1 s1 r2 s2,
    ExecuteCommand Bench.host write Bench.state0 = (Ok r1, s1) /\
    CommandResult.Success r1 = true /\ CommandResult.Mode r1 = ModeInterpreted /\
    ioutil_ReadFile "f" (os s1) = inl "open f: no such file or directory" /\
    ExecuteCommand Bench.host append s1 = (Ok r2, s2) /\
    CommandResult.Success r2 = true /\ CommandResult.Mode r2 = ModeInterpreted /\
    ioutil_ReadFile "f" (os s2) = inl "open f: no such file or directory" /\
    files (os s2) = ∅ /\ stdout (os s2) = "XX".
Proof.
  intros write append. eexists _, _, _, _.
  split; [vm_compute; reflexivity|]. split; [reflexivity|]. split; [reflexivity|].
  split; [vm_compute; reflexivity|].
  split; [vm_compute; reflexivity|]. split; [reflexivity|]. split; [reflexivity|].
  split; [vm_compute; reflexivity|]. split; vm_compute; reflexivity.
Qed.

(** ** State properties kept by Execute *)

Lemma preserves_ret {A} (I : State -> Prop) (a : A) : preserves I (ret a).
Proof. by intros s Hs. Qed.

Lemma preserves_stop {A} (I : State -> Prop) (r : Res A) : preserves I (fun s => (r, s)).
Proof. by intros s Hs. Qed.

Lemma preserves_bind {A B} (I : State -> Prop) (m : M A) (k : A -> M B) :
  preserves I m -> (forall a, preserves I (k a)) -> preserves I (bind m k).
Proof.
  intros Hm Hk s Hs. unfold bind. specialize (Hm s Hs).
  destruct (m s) as [[a|e|e] s1]; simpl in *; try done. by apply Hk.
Qed.

Section Preservation.
Context (H : Host) (I : State -> Prop).
Hypothesis Hcommand : forall cmd, preserves I (ExecuteCommand H cmd).
Hypothesis Hinput : forall cmd input, preserves I (ExecuteCommandWithInput H cmd input).
Hypothesis Hassign : forall name value s,
  I s -> I (setEnvManager (em_SetEnv name value (envManager s)) s).

Lemma pipelineLoop_preserves (commands : list CommandNode) :
  forall i previousOutput results,
  preserves I (pipelineLoop H i commands previousOutput results).
Proof.
  induction commands as [|cmd rest IH]; intros i previousOutput results.
  - simpl. destruct (last results); [apply preserves_ret|apply preserves_stop].
  - cbn [pipelineLoop]. apply preserves_bind.
    + destruct (Nat.eqb i 0); [apply Hcommand|apply Hinput].
    + intros result. cbv zeta.
      destruct (negb (CommandResult.Success result)); [apply preserves_ret|apply IH].
Qed.

Lemma evaluateCondition_preserves (condition : Node) :
  preserves I (evaluateCondition H condition).
Proof.
  destruct condition; try apply preserves_stop.
  simpl. apply preserves_bind; [apply Hcommand|]. intros r. apply preserves_ret.
Qed.

Lemma rangeNodes_preserves (step : Node -> ExecutionResult.t -> M ExecutionResult.t)
    (nodes : list Node) :
  Forall (fun n => forall result, preserves I (step n result)) nodes ->
  forall result, preserves I (rangeNodes step nodes result).
Proof.
  induction 1 as [|n nodes Hn _ IH]; intros result.
  - apply preserves_ret.
  - cbn [rangeNodes]. apply preserves_bind; [apply Hn|apply IH].
Qed.

Lemma Execute__preserves (step : Node -> ExecutionResult.t -> M ExecutionResult.t)
    (nodes : list Node) :
  Forall (fun n => forall result, preserves I (step n result)) nodes ->
  preserves I (Execute_ step nodes).
Proof.
  intros Hall s Hs. unfold Execute_.
  apply (preserves_bind I (rangeNodes step nodes emptyResult)); [|by intros a s1 Hs1|done].
  by apply rangeNodes_preserves.
Qed.

Lemma forLoop_preserves (Exec : ScriptNode -> M ExecutionResult.t) variable body :
  preserves I (Exec body) ->
  forall items result, preserves I (forLoop Exec variable body items result).
Proof.
  intros Hbody. induction items as [|item rest IH]; intros result.
  - apply preserves_ret.
  - cbn [forLoop]. apply preserves_bind.
    + intros s Hs. simpl. by apply Hassign.
    + intros _. apply preserves_bind; [exact Hbody|]. intros loopResult. cbv zeta.
      destruct (negb (ExecutionResult.Success loopResult)); [apply preserves_ret|apply IH].
Qed.

Lemma whileLoop_preserves (Exec : ScriptNode -> M ExecutionResult.t) condition body :
  preserves I (Exec body) ->
  forall remaining result, preserves I (whileLoop H Exec condition body remaining result).
Proof.
  intros Hbody. induction remaining as [|remaining IH]; intros result.
  - apply preserves_stop.
  - cbn [whileLoop]. apply preserves_bind; [apply evaluateCondition_preserves|].
    intros c. destruct (negb c); [apply preserves_ret|].
    apply preserves_bind; [exact Hbody|]. intros loopResult. cbv zeta.
    destruct (negb (ExecutionResult.Success loopResult)); [apply preserves_ret|apply IH].
Qed.

Lemma ExecuteNode_preserves (node : Node) :
  forall result, preserves I (ExecuteNode H node result).
Proof.
  induction node using Node_nested_ind; intros result; cbn [ExecuteNode];
    try apply preserves_stop.
  - apply preserves_bind; [apply Hcommand|intros; apply preserves_ret].
  - apply preserves_bind; [apply pipelineLoop_preserves|intros; apply preserves_ret].
  - apply preserves_bind; [|intros; apply preserves_ret].
    unfold ExecuteIf_. apply preserves_bind; [apply evaluateCondition_preserves|].
    intros [|]; [by apply Execute__preserves|].
    destruct el as [e|]; [by apply Execute__preserves|apply preserves_ret].
  - apply preserves_bind; [|intros; apply preserves_ret].
    apply forLoop_preserves. by apply Execute__preserves.
  - apply preserves_bind; [|intros; apply preserves_ret].
    apply whileLoop_preserves. by apply Execute__preserves.
  - intros s Hs. simpl. by apply Hassign.
Qed.

Lemma Execute_preserves (script : ScriptNode) : preserves I (Execute H script).
Proof.
  apply Execute__preserves. apply Forall_forall. intros n _. apply ExecuteNode_preserves.
Qed.
End Preservation.

(** ** The command cache *)

Lemma cache_Get_entries name args t c e :
  e ∈ entries (snd (cache_Get name args t c)) -> e ∈ entries c.
Proof.
  unfold cache_Get.
  destruct (List.find (keyMatches name args) (entries c)) as [e0|]; [|done].
  destruct (Z.leb (t - ce_insertedAt e0) (ttl c)); [done|]. simpl.
  rewrite !list_elem_of_In, filter_In. tauto.
Qed.

Lemma cache_Get_hit name args t c r :
  fst (cache_Get name args t c) = Some r ->
  exists e, e ∈ entries c /\ ce_result e = r /\ ce_name e = name /\ ce_args e = args.
Proof.
  unfold cache_Get.
  destruct (List.find (keyMatches name args) (entries c)) as [e0|] eqn:Hfind; [|done].
  destruct (Z.leb (t - ce_insertedAt e0) (ttl c)); [|done]. simpl. intros [= <-].
  apply find_some in Hfind as [Hin Hkey]. exists e0.
  unfold keyMatches in Hkey. apply andb_prop in Hkey as [Hn Ha].
  apply bool_decide_eq_true in Hn, Ha. by rewrite list_elem_of_In.
Qed.

Lemma cache_Put_entries name args r t c e :
  e ∈ entries (cache_Put name args r t c) -> e ∈ entries c \/ e = mkEntry name args r t.
Proof.
  unfold cache_Put. simpl. rewrite elem_of_app, list_elem_of_singleton.
  intros [Hin| ->]; [left|by right].
  assert (Hothers : e ∈ List.filter (fun x => negb (keyMatches name args x)) (entries c)).
  { destruct (Nat.ltb _ _); [done|].
    destruct (List.filter _ (entries c)) as [|x l]; [done|]. simpl in Hin. set_solver. }
  rewrite list_elem_of_In, filter_In in Hothers. rewrite list_elem_of_In. tauto.
Qed.

Lemma cacheInvariant_sub (c c' : CommandCache) :
  (forall e, e ∈ entries c' -> e ∈ entries c) -> cacheInvariant c -> cacheInvariant c'.
Proof.
  unfold cacheInvariant. rewrite !Forall_forall. intros Hsub Hinv e He. by apply Hinv, Hsub.
Qed.

Lemma cacheInvariant_Put name args r t c :
  eligible r -> cacheInvariant c -> cacheInvariant (cache_Put name args r t c).
Proof.
  unfold cacheInvariant. rewrite !Forall_forall. intros Hr Hinv e He.
  apply cache_Put_entries in He as [He| ->]; [by apply Hinv|done].
Qed.

Lemma executeStdLibFunction_cache (H : Host) funcName args s :
  cache (snd (executeStdLibFunction H funcName args s)) = cache s.
Proof.
  unfold executeStdLibFunction, sl_Print, sl_Println, sl_Error, sl_Errorln,
    sl_WriteFile, sl_SetEnv, sl_ChangeDir.
  repeat case_match; simplify_eq; reflexivity.
Qed.

Lemma executeInterpreted_cache (H : Host) cmd s :
  cache (snd (executeInterpreted H cmd s)) = cache s.
Proof.
  unfold executeInterpreted.
  pose proof (executeStdLibFunction_cache H (Name cmd) (Args cmd) s) as Hc.
  by destruct (executeStdLibFunction H (Name cmd) (Args cmd) s) as [[res [e|]] s1].
Qed.

Lemma cacheLookup_entries cmd s e :
  e ∈ entries (cache (snd (cacheLookup cmd s))) -> e ∈ entries (cache s).
Proof.
  unfold cacheLookup. destruct (Redirect cmd); [done|].
  pose proof (cache_Get_entries (Name cmd) (Args cmd) (time_Now s) (cache s) e) as Hsub.
  by destruct (cache_Get (Name cmd) (Args cmd) (time_Now s) (cache s)) as [hit c1].
Qed.

Lemma cacheLookup_hit cmd s r :
  fst (cacheLookup cmd s) = Some r ->
  Redirect cmd = None /\
  exists e, e ∈ entries (cache s) /\ ce_result e = r /\
            ce_name e = Name cmd /\ ce_args e = Args cmd.
Proof.
  unfold cacheLookup. destruct (Redirect cmd); [done|].
  pose proof (cache_Get_hit (Name cmd) (Args cmd) (time_Now s) (cache s) r) as Hhit.
  destruct (cache_Get (Name cmd) (Args cmd) (time_Now s) (cache s)) as [hit c1].
  simpl in *. by split; [|apply Hhit].
Qed.

(** The entries executeProcess leaves in the cache are old ones, or the
    one new entry for this very command, put there after a successful run
    without redirect. *)
Lemma executeProcess_entries (H : Host) cmd s r s' e :
  executeProcess H cmd s = (Ok r, s') ->
  e ∈ entries (cache s') ->
  e ∈ entries (cache s) \/
  (Redirect cmd = None /\ CommandResult.Command r = cmd /\
   CommandResult.Success r = true /\ CommandResult.ExitCode r = 0 /\
   ce_result e = r /\ ce_name e = Name cmd /\ ce_args e = Args cmd).
Proof.
  unfold executeProcess.
  pose proof (cacheLookup_entries cmd s e) as Hsub.
  destruct (cacheLookup cmd s) as [[hit|] s0]; simpl in Hsub.
  { intros [= <- <-]. auto. }
  destruct (configureStdio cmd s0) as [[c [err|]] o1].
  { intros [= <- <-]. auto. }
  destruct (Run H c o1) as [rr o2].
  destruct (isNil (run_err rr)) eqn:Hnil; cbn [andb];
    [destruct (bool_decide (Redirect cmd = None)) eqn:Hrd|];
    intros [= <- <-]; simpl; auto.
  intros Hin. apply cache_Put_entries in Hin as [Hin| ->]; [auto|].
  right. apply bool_decide_eq_true in Hrd. cbn.
  destruct (run_err rr); try discriminate. done.
Qed.

Lemma configureStdio_cache_blind cmd s c' :
  configureStdio cmd (setCache c' s) = configureStdio cmd s.
Proof. reflexivity. Qed.

Lemma executeProcess_redirect_cache_blind (H : Host) cmd rd s c' :
  Redirect cmd = Some rd ->
  executeProcess H cmd (setCache c' s) =
  (fst (executeProcess H cmd s), setCache c' (snd (executeProcess H cmd s))).
Proof.
  intros Hrd. unfold executeProcess.
  rewrite !(cacheLookup_redirect cmd rd) by done.
  rewrite configureStdio_cache_blind.
  destruct (configureStdio cmd s) as [[c [err|]] o1]; [done|].
  destruct (Run H c o1) as [rr o2].
  rewrite Hrd, bool_decide_eq_false_2 by done. by rewrite andb_false_r.
Qed.

Lemma executeProcess_cacheInvariant (H : Host) cmd :
  preserves (fun s => cacheInvariant (cache s)) (executeProcess H cmd).
Proof.
  intros s Hinv.
  destruct (executeProcess_Ok H cmd s) as (r & s' & HE). rewrite HE. simpl.
  unfold cacheInvariant in *. rewrite Forall_forall in *. intros e He.
  destruct (executeProcess_entries H cmd s r s' e HE He)
    as [Hold|(Hrd & Hcmd & Hok & Hcode & Hres & _)]; [by apply Hinv|].
  rewrite Hres. unfold eligible. by rewrite Hcmd.
Qed.

Lemma ExecuteCommand_cacheInvariant (H : Host) cmd :
  preserves (fun s => cacheInvariant (cache s)) (ExecuteCommand H cmd).
Proof.
  intros s Hinv. unfold ExecuteCommand.
  destruct (CheckCommand H cmd); [done|].
  assert (Hproc : cacheInvariant (cache (snd (executeProcess H cmd s))))
    by (by apply executeProcess_cacheInvariant).
  destruct (decideExecutionMode H cmd s); unfold bind, executeHybrid.
  - pose proof (executeInterpreted_cache H cmd s) as Hc.
    destruct (executeInterpreted H cmd s) as [[r|e|e] s1]; simpl in *; by rewrite Hc.
  - by destruct (executeProcess H cmd s) as [[r|e|e] s1].
  - by destruct (executeProcess H cmd s) as [[r|e|e] s1].
Qed.

(** C6: executeProcess adds a cache entry only for a command without
    redirect whose process exited successfully; for a command with a
    redirect the cache is neither read nor written; hence every entry of
    the cache is, and stays, the result of a successful run (exit code 0)
    of a command without redirect, whatever script is executed. *)
Theorem cache_holds_only_eligible_results (H : Host) :
  (forall cmd s r s' e,
     executeProcess H cmd s = (Ok r, s') ->
     e ∈ entries (cache s') -> e ∉ entries (cache s) ->
     Redirect cmd = None /\ CommandResult.Success r = true /\
     CommandResult.ExitCode r = 0 /\
     ce_result e = r /\ ce_name e = Name cmd /\ ce_args e = Args cmd) /\
  (forall cmd rd s c',
     Redirect cmd = Some rd ->
     executeProcess H cmd (setCache c' s) =
     (fst (executeProcess H cmd s), setCache c' (snd (executeProcess H cmd s))) /\
     cache (snd (executeProcess H cmd s)) = cache s) /\
  (forall script s,
     cacheInvariant (cache s) -> cacheInvariant (cache (snd (Execute H script s)))).
Proof.
  split; [|split].
  - intros cmd s r s' e HE Hin Hnew.
    destruct (executeProcess_entries H cmd s r s' e HE Hin) as [Hold|Hnewe]; [done|].
    tauto.
  - intros cmd rd s c' Hrd.
    pose proof (executeProcess_redirect_cache_blind H cmd rd s (cache s) Hrd) as Hself.
    split; [by apply (executeProcess_redirect_cache_blind H cmd rd)|].
    replace (setCache (cache s) s) with s in Hself by (by destruct s).
    destruct (executeProcess H cmd s) as [res s1]. simpl in *.
    by injection Hself as ->.
  - intros script. apply (Execute_preserves H (fun s => cacheInvariant (cache s))).
    + apply ExecuteCommand_cacheInvariant.
    + intros cmd input s Hinv. by rewrite ExecuteCommandWithInput_cache_kept.
    + by intros name value s Hinv.
Qed.

Lemma cache_holds_only_eligible_results_witness :
  let s' := snd (Execute Bench.host
                   [ NCommand (Bench.cmd "echo" ["x"]);
                     NCommand (mkCommand "echo" ["y"] (Some (mkRedirect ">" "f" 1)));
                     NCommand (Bench.cmd "false" []) ] Bench.state0) in
  cacheInvariant (cache s') /\ length (entries (cache s')) = 1%nat.
Proof.
  split; [|vm_compute; reflexivity].
  apply (cache_holds_only_eligible_results Bench.host). apply List.Forall_nil.
Defined.
